(** * Cacheman: an in-memory key/value cache backed by an SQLite table

    A shallow embedding of [src/cacheman.py] and the properties of its
    operations.  The embedding is sequential: every method body runs
    under [self._lock], so a method is modelled as one atomic function
    on the instance state.  The SQLite file at [db_path] is modelled as
    the contents of its single table [cache]. *)

From Stdlib Require Import ZArith DecimalString.
From stdpp Require Import gmap strings list fin_maps.

(** ** Python values *)

(** The payloads the cache is used with: [None], integers and strings.
    [sqlite3] binds them to a statement parameter, but for an integer
    outside 64 bits (see [bindable]). *)
Inductive value : Type :=
  | VNone
  | VInt (n : Z)
  | VStr (s : string).

#[global] Instance value_eq_dec : EqDecision value.
Proof. solve_decision. Defined.

(** Python truthiness: [None], [0] and the empty string are falsy. *)
Definition truthy (v : value) : bool :=
  match v with
  | VNone => false
  | VInt n => negb (n =? 0)%Z
  | VStr s => negb (String.eqb s "")
  end.

(** [a or b] *)
Definition py_or (a b : value) : value := if truthy a then a else b.

(** [str(v)] *)
Definition str (v : value) : string :=
  match v with
  | VNone => "None"
  | VInt n => NilZero.string_of_int (Z.to_int n)
  | VStr s => s
  end.

(** [q in s] on strings: [q] occurs in [s] as a contiguous run of
    characters, compared character by character. *)
Fixpoint startswith (q s : string) : bool :=
  match q, s with
  | EmptyString, _ => true
  | String a q', String b s' => Ascii.eqb a b && startswith q' s'
  | String _ _, EmptyString => false
  end.

Fixpoint py_in (q s : string) : bool :=
  startswith q s ||
  match s with
  | EmptyString => false
  | String _ s' => py_in q s'
  end.

(** ** The persistent table *)

(** The table [cache (key TEXT PRIMARY KEY, value TEXT)]: at most one
    row per key. *)
Abbreviation table := (gmap string value).

(** The column [value] is declared [TEXT]: SQLite converts a number
    stored there to its text form; text and NULL are stored as they
    are, and read back as [str] and [None].  This is the row of a
    value that [sqlite3] accepted; [bindable] below says which values
    it accepts. *)
Definition sqlite_text (v : value) : value :=
  match v with
  | VInt n => VStr (str (VInt n))
  | _ => v
  end.

(** [INSERT OR REPLACE INTO cache (key, value) VALUES (?, ?)] *)
Definition insert_or_replace (db : table) (row : string * value) : table :=
  <[row.1 := sqlite_text row.2]> db.

(** The loop of [backup_to_db]: one statement per entry, in order. *)
Definition upsert_all (rows : list (string * value)) (db : table) : table :=
  foldl insert_or_replace db rows.

(** [SELECT key, value FROM cache] followed by [fetchall()].  SQLite
    promises no order of the rows; the model takes the order of
    [map_to_list]. *)
Definition fetchall (db : table) : list (string * value) := map_to_list db.

(** ** The cache store *)

Inductive dtype : Type := DictT | ListT.

(** [self._data]: a [dict] or a [list] of pairs. *)
Inductive container : Type :=
  | Dict (d : gmap string value)
  | Seq (l : list (string * value)).

(** An instance together with the table of the file it owns. *)
Record Cacheman : Type := mkCacheman {
  allow_loading : bool;
  _data : container;
  cache : table
}.

(** [self.data_type] is set once by the constructor together with the
    shape of [self._data], so it is read off the container. *)
Definition data_type (self : Cacheman) : dtype :=
  match _data self with
  | Dict _ => DictT
  | Seq _ => ListT
  end.

(** The entries of a container, in iteration order
    ([self._data.items()] or [self._data]). *)
Definition items (c : container) : list (string * value) :=
  match c with
  | Dict d => map_to_list d
  | Seq l => l
  end.

Definition keys (self : Cacheman) : list string := (items (_data self)).*1.

(** The value returned by a method whose result a claim is about:
    [None], or the [KeyError] object that [add] returns. *)
Inductive py_result : Type :=
  | RNone
  | RKeyError (msg : string).

Definition with_data (self : Cacheman) (c : container) : Cacheman :=
  {| allow_loading := allow_loading self; _data := c; cache := cache self |}.

(** [backup_to_db] when every statement of its loop runs and the
    transaction is committed.  [backup_to_db_call] below is the call
    with the exception that a statement may raise. *)
Definition backup_to_db (self : Cacheman) : Cacheman :=
  {| allow_loading := allow_loading self;
     _data := _data self;
     cache := upsert_all (items (_data self)) (cache self) |}.

(** The [for] loop of [get] in list mode. *)
Fixpoint list_get (l : list (string * value)) (key : string) : value :=
  match l with
  | [] => VNone
  | (k, v) :: l' => if decide (k = key) then v else list_get l' key
  end.

(** [dict.get(key)] *)
Definition dict_get (d : gmap string value) (key : string) : value :=
  default VNone (d !! key).

Definition get (key : string) (self : Cacheman) : value :=
  match _data self with
  | Dict d => py_or (dict_get d key) VNone
  | Seq l => list_get l key
  end.

(** [add], [remove] and [edit] with a backup that completes; the calls
    with the exception of the backup are [add_call], [remove_call] and
    [edit_call] below. *)
Definition add (key : string) (v : value) (self : Cacheman)
  : py_result * Cacheman :=
  if decide (get key self ≠ VNone) then
    (RKeyError ("Key '" +:+ key +:+ "' already exists."), self)
  else
    (RNone,
     backup_to_db
       (with_data self
          match _data self with
          | Dict d => Dict (<[key := v]> d)
          | Seq l => Seq (l ++ [(key, v)])
          end)).

Definition remove (key : string) (self : Cacheman) : Cacheman :=
  backup_to_db
    (with_data self
       match _data self with
       | Dict d => Dict (if decide (is_Some (d !! key)) then delete key d else d)
       | Seq l => Seq (filter (λ e, e.1 ≠ key) l)
       end).

(** [(k, new_value) if k == key else (k, v)] *)
Definition replace_value (key : string) (new_value : value)
    (e : string * value) : string * value :=
  if decide (e.1 = key) then (e.1, new_value) else e.

Definition edit (key : string) (new_value : value) (self : Cacheman) : Cacheman :=
  backup_to_db
    (with_data self
       match _data self with
       | Dict d =>
           Dict (if decide (is_Some (d !! key)) then <[key := new_value]> d else d)
       | Seq l =>
           Seq (replace_value key new_value <$> l)
       end).

(** [query in k or query in str(v)] *)
Definition matches (query : string) (e : string * value) : bool :=
  py_in query e.1 || py_in query (str e.2).

Definition search (query : string) (self : Cacheman) : container :=
  match _data self with
  | Dict d => Dict (filter (λ e, matches query e = true) d)
  | Seq l => Seq (filter (λ e, matches query e = true) l)
  end.

Definition get_all (self : Cacheman) : container := _data self.

(** [{key: value for key, value in rows}]: a later row wins. *)
Definition dict_of_rows (rows : list (string * value)) : gmap string value :=
  foldl (λ d row, <[row.1 := row.2]> d) ∅ rows.

(** [load_from_db]; [None] stands for the [RuntimeError]. *)
Definition load_from_db (self : Cacheman) : option Cacheman :=
  if allow_loading self then
    let rows := fetchall (cache self) in
    Some (with_data self
            match _data self with
            | Dict _ => Dict (dict_of_rows rows)
            | Seq _ => Seq rows
            end)
  else None.

(** [CREATE TABLE IF NOT EXISTS]: a new file gets an empty table, an
    existing table is left as it is. *)
Definition _initialize_db (file : option table) : table := default ∅ file.

(** The constructor, for a valid [path_mode] and [data_type].  [file]
    is the table of the file at [db_path], [None] when no file exists;
    a file that exists is one that has the table [cache], as every file
    that an instance has left (a file without it makes [load_from_db]
    raise and is not modelled).  The backup thread it starts takes no
    step in this model. *)
Definition __init__ (file : option table) (dt : dtype) (loading : bool) : Cacheman :=
  let empty := match dt with DictT => Dict ∅ | ListT => Seq [] end in
  match file with
  | Some db =>
      if loading then
        default (mkCacheman loading empty db)
                (load_from_db (mkCacheman loading empty db))
      else mkCacheman loading empty (_initialize_db file)
  | None => mkCacheman loading empty (_initialize_db file)
  end.

(** A program of mutating calls, each with its triggered backup. *)
Inductive op : Type :=
  | Add (key : string) (v : value)
  | Edit (key : string) (v : value)
  | Remove (key : string).

Definition step (self : Cacheman) (o : op) : Cacheman :=
  match o with
  | Add k v => (add k v self).2
  | Edit k v => edit k v self
  | Remove k => remove k self
  end.

Definition run (ops : list op) (self : Cacheman) : Cacheman := foldl step self ops.

(** ** Calls and the exception of a backup *)

(** The values that [sqlite3] can bind to a statement parameter:
    [None], a [str], and an [int] of the signed 64-bit range. *)
Definition bindable (v : value) : bool :=
  match v with
  | VInt n => (-9223372036854775808 <=? n)%Z && (n <=? 9223372036854775807)%Z
  | _ => true
  end.

(** What [cursor.execute] raises for an [int] outside that range. *)
Inductive exception : Type := OverflowError.

(** How a call ends. *)
Inductive outcome : Type :=
  | Returns (r : py_result)
  | Raises (e : exception).

(** The loop of [backup_to_db] with its exception: the first value
    that does not bind ends the loop. *)
Fixpoint execute_all (rows : list (string * value)) (db : table)
  : exception + table :=
  match rows with
  | [] => inr db
  | row :: rows' =>
      if bindable row.2 then execute_all rows' (insert_or_replace db row)
      else inl OverflowError
  end.

(** [backup_to_db] as a call: [conn.commit()] after the loop, or the
    rollback of [with sqlite3.connect(...) as conn] when the loop
    raises, which leaves the table as it was. *)
Definition backup_to_db_call (self : Cacheman) : outcome * Cacheman :=
  match execute_all (items (_data self)) (cache self) with
  | inr db =>
      (Returns RNone,
       {| allow_loading := allow_loading self; _data := _data self; cache := db |})
  | inl e => (Raises e, self)
  end.

(** [add] as a call: when the backup raises, the entry is already in
    the store. *)
Definition add_call (key : string) (v : value) (self : Cacheman)
  : outcome * Cacheman :=
  if decide (get key self ≠ VNone) then
    (Returns (RKeyError ("Key '" +:+ key +:+ "' already exists.")), self)
  else
    backup_to_db_call
      (with_data self
         match _data self with
         | Dict d => Dict (<[key := v]> d)
         | Seq l => Seq (l ++ [(key, v)])
         end).

Definition remove_call (key : string) (self : Cacheman) : outcome * Cacheman :=
  backup_to_db_call
    (with_data self
       match _data self with
       | Dict d => Dict (if decide (is_Some (d !! key)) then delete key d else d)
       | Seq l => Seq (filter (λ e, e.1 ≠ key) l)
       end).

Definition edit_call (key : string) (new_value : value) (self : Cacheman)
  : outcome * Cacheman :=
  backup_to_db_call
    (with_data self
       match _data self with
       | Dict d =>
           Dict (if decide (is_Some (d !! key)) then <[key := new_value]> d else d)
       | Seq l => Seq (replace_value key new_value <$> l)
       end).

Definition call (o : op) (self : Cacheman) : outcome * Cacheman :=
  match o with
  | Add k v => add_call k v self
  | Edit k v => edit_call k v self
  | Remove k => remove_call k self
  end.

(** A program of calls whose client goes on after an exception: how
    each call ended, and the instance at the end. *)
Fixpoint run_calls (ops : list op) (self : Cacheman) : list outcome * Cacheman :=
  match ops with
  | [] => ([], self)
  | o :: ops' =>
      let r := call o self in
      let rest := run_calls ops' r.2 in
      (r.1 :: rest.1, rest.2)
  end.

(** ** The backup thread *)

(** [_start_backup_thread]: the thread is started unless
    [allow_data_loss] is false. *)
Definition _start_backup_thread (allow_data_loss : bool) : bool := allow_data_loss.

(** What takes the lock next: a call of the client, or one turn of the
    loop of [_backup_periodically] once its sleep is over. *)
Inductive event : Type :=
  | Call (o : op)
  | Tick.

Definition on_event (allow_data_loss : bool) (self : Cacheman) (e : event)
  : Cacheman :=
  match e with
  | Call o => step self o
  | Tick => if _start_backup_thread allow_data_loss then backup_to_db self else self
  end.

Definition run_events (allow_data_loss : bool) (evs : list event)
    (self : Cacheman) : Cacheman :=
  foldl (on_event allow_data_loss) self evs.

(** The calls of a schedule, without the turns of the thread. *)
Definition calls (evs : list event) : list op :=
  omap (λ e, match e with Call o => Some o | Tick => None end) evs.

(** ** The constructor and its arguments *)

(** The files that hold a table, by path. *)
Abbreviation files := (gmap string table).

Section constructor.

(** [path.dirname(__file__)] and [path.join], as the platform has them. *)
Variable module_dir : string.
Variable path_join : string → string → string.

(** The first [if] of [__init__]; [None] is its [else] branch. *)
Definition resolve_db_path (db_path path_mode : string) : option string :=
  if decide (path_mode = "absolute") then Some db_path
  else if decide (path_mode = "relative") then Some (path_join module_dir db_path)
  else None.

(** The second [if] of [__init__]; [None] is its [else] branch. *)
Definition select_data_type (data_type : string) : option dtype :=
  if decide (data_type = "dict") then Some DictT
  else if decide (data_type = "list") then Some ListT
  else None.

(** [Cacheman(db_path, path_mode, data_type, allow_loading=...)]: the
    message of the [ValueError], or the path, the new instance and the
    files as the constructor leaves them. *)
Definition Cacheman_new (fs : files) (db_path path_mode data_type : string)
    (loading : bool) : string + (string * Cacheman * files) :=
  match resolve_db_path db_path path_mode with
  | None => inl "Invalid path mode. Use 'absolute' or 'relative'."
  | Some p =>
      match select_data_type data_type with
      | None => inl "Unsupported data type. Use 'dict' or 'list'."
      | Some dt =>
          let self := __init__ (fs !! p) dt loading in
          inr (p, self, <[p := cache self]> fs)
      end
  end.

End constructor.

(** ** Specification vocabulary *)

(** [q] is a substring of [s]. *)
Definition is_substring (q s : string) : Prop :=
  ∃ pre post, s = pre +:+ q +:+ post.

(** Two containers hold the same key/value set. *)
Definition same_entries (c1 c2 : container) : Prop :=
  ∀ k v, (k, v) ∈ items c1 ↔ (k, v) ∈ items c2.

(** The table holds exactly the entries of the store. *)
Definition table_mirrors (self : Cacheman) : Prop :=
  ∀ k v, cache self !! k = Some v ↔ (k, v) ∈ items (_data self).

(** The value the last entry for [k] carries, if any. *)
Fixpoint stored (k : string) (rows : list (string * value)) : option value :=
  match rows with
  | [] => None
  | (k', v) :: r =>
      match stored k r with
      | Some w => Some w
      | None => if decide (k' = k) then Some v else None
      end
  end.

(** The value a call stores, if it stores one. *)
Definition op_value (o : op) : option value :=
  match o with
  | Add _ v | Edit _ v => Some v
  | Remove _ => None
  end.

(** A [str] payload. *)
Definition is_text (v : value) : Prop := ∃ s, v = VStr s.

(** An [add] or [edit] call that stores text. *)
Definition add_or_edit_text (o : op) : Prop :=
  match o with
  | Add _ v | Edit _ v => is_text v
  | Remove _ => False
  end.

(** No key twice, and every value satisfies [P]. *)
Definition good (P : value → Prop) (c : container) : Prop :=
  NoDup (items c).*1 ∧ Forall (λ e, P e.2) (items c).

(** Text values under distinct keys, mirrored by the table. *)
Definition consistent (st : Cacheman) : Prop :=
  good is_text (_data st) ∧ table_mirrors st.

(** The container that [edit] puts in place of [self._data]. *)
Definition edit_data (key : string) (new_value : value) (c : container)
  : container :=
  match c with
  | Dict d =>
      Dict (if decide (is_Some (d !! key)) then <[key := new_value]> d else d)
  | Seq l => Seq (replace_value key new_value <$> l)
  end.

(** The container that [remove] puts in place of [self._data]. *)
Definition remove_data (key : string) (c : container) : container :=
  match c with
  | Dict d => Dict (if decide (is_Some (d !! key)) then delete key d else d)
  | Seq l => Seq (filter (λ e, e.1 ≠ key) l)
  end.

(** The key a call is about. *)
Definition op_key (o : op) : string :=
  match o with
  | Add k _ | Edit k _ | Remove k => k
  end.

(** The call is an [add] of key [k]. *)
Definition adds (k : string) (o : op) : Prop :=
  match o with
  | Add k' _ => k' = k
  | _ => False
  end.

(** An [add] or [edit] call whose value is not [None]. *)
Definition stores_value (o : op) : Prop :=
  match o with
  | Add _ v | Edit _ v => v ≠ VNone
  | Remove _ => False
  end.

(** A table as SQLite holds it: the values are text or NULL. *)
Definition sqlite_table (db : table) : Prop :=
  ∀ k v, db !! k = Some v → sqlite_text v = v.

(** The table holds exactly the text forms of the entries of the store. *)
Definition text_mirrors (self : Cacheman) : Prop :=
  ∀ k w, cache self !! k = Some w ↔
         ∃ v, (k, v) ∈ items (_data self) ∧ w = sqlite_text v.

(** Every value of the container binds. *)
Definition binds (c : container) : Prop :=
  Forall (λ e, bindable e.2 = true) (items c).

(** The value that the call stores, if any, binds. *)
Definition op_binds (o : op) : Prop :=
  from_option (λ v, bindable v = true) True (op_value o).

(** An [add] or [edit] call whose value is not [None] and binds. *)
Definition stores_bindable (o : op) : Prop := stores_value o ∧ op_binds o.

(** The call returned. *)
Definition returned (r : outcome) : Prop := ∃ x, r = Returns x.

(** Nothing is left to back up. *)
Definition synced (self : Cacheman) : Prop := backup_to_db self = self.

(** ** Sanity checks of the value model *)

Example str_int_pos : str (VInt 42) = "42".
Proof. reflexivity. Qed.

Example str_int_neg : str (VInt (-7)) = "-7".
Proof. reflexivity. Qed.

Example str_int_zero : str (VInt 0) = "0".
Proof. reflexivity. Qed.

Example py_in_examples :
  py_in "a" "alpha" = true ∧ py_in "a" "beta" = true ∧
  py_in "2" "2" = true ∧ py_in "2" "alpha" = false ∧
  py_in "" "" = true ∧ py_in "A" "alpha" = false ∧ py_in ".*" "alpha" = false.
Proof. repeat split; reflexivity. Qed.

(** ** Strings *)

Section substring.

Lemma startswith_spec (q s : string) :
  startswith q s = true ↔ ∃ post, s = q +:+ post.
Proof.
  revert s. induction q as [|a q IH]; intros [|b s]; simpl.
  - split; [intros _; by exists "" | done].
  - split; [intros _; by exists (String b s) | done].
  - split; [done | intros [post Hpost]; discriminate].
  - rewrite andb_true_iff, Ascii.eqb_eq, IH. split.
    + intros [-> [post ->]]. by exists post.
    + intros [post Hpost]. injection Hpost as -> ->. eauto.
Qed.

Lemma py_in_spec (q s : string) : py_in q s = true ↔ is_substring q s.
Proof.
  unfold is_substring. induction s as [|a s IH].
  - cbn [py_in]. rewrite orb_false_r, startswith_spec. split.
    + intros [post Hpost]. by exists "", post.
    + intros (pre & post & Heq). destruct pre; [|discriminate].
      simpl in Heq. eauto.
  - cbn [py_in]. rewrite orb_true_iff, startswith_spec, IH. split.
    + intros [[post Hpost] | (pre & post & Heq)].
      * by exists "", post.
      * exists (String a pre), post. simpl. by rewrite Heq.
    + intros (pre & post & Heq). destruct pre as [|b pre]; simpl in Heq.
      * left. eauto.
      * right. injection Heq as _ Heq. eauto.
Qed.

#[global] Instance is_substring_dec (q s : string) : Decision (is_substring q s).
Proof.
  destruct (py_in q s) eqn:E.
  - left. by apply py_in_spec.
  - right. intros H. apply py_in_spec in H. congruence.
Defined.

End substring.

(** ** The table after a backup *)

Section upsert.

Implicit Types (rows : list (string * value)) (db : table) (k : string).

Lemma stored_None rows k : stored k rows = None ↔ k ∉ rows.*1.
Proof.
  induction rows as [|[k' v] rows IH]; simpl.
  - split; [intros _; apply not_elem_of_nil | done].
  - rewrite not_elem_of_cons, <- IH.
    destruct (stored k rows).
    + split; [done | by intros [_ ?]].
    + case_decide.
      * split; [done | intros [Hne _]; congruence].
      * split; [intros _; split; [congruence | done] | done].
Qed.

Lemma stored_elem rows k v : stored k rows = Some v → (k, v) ∈ rows.
Proof.
  induction rows as [|[k' w] rows IH]; simpl; [done|].
  destruct (stored k rows) as [u|] eqn:E.
  - intros [= ->]. right. by apply IH.
  - case_decide; [|done]. intros [= ->]. subst. left.
Qed.

Lemma stored_NoDup rows k v :
  NoDup rows.*1 → (k, v) ∈ rows → stored k rows = Some v.
Proof.
  induction rows as [|[k' w] rows IH]; simpl.
  - intros _ H. by apply elem_of_nil in H.
  - rewrite NoDup_cons. intros [Hk' Hnd] Hin.
    apply elem_of_cons in Hin as [[= -> ->] | Hin].
    + apply stored_None in Hk'. rewrite Hk'. by rewrite decide_True.
    + by rewrite (IH Hnd Hin).
Qed.

Lemma stored_map_to_list (d : gmap string value) k :
  stored k (map_to_list d) = d !! k.
Proof.
  destruct (d !! k) as [v|] eqn:E.
  - apply stored_NoDup; [apply NoDup_fst_map_to_list|].
    by apply elem_of_map_to_list.
  - apply stored_None. intros Hin.
    apply list_elem_of_fmap in Hin as ([k' v] & -> & Hin).
    apply elem_of_map_to_list in Hin. simpl in *. congruence.
Qed.

(** Every statement of the loop writes one row, and the last write
    for a key is the one that stays. *)
Lemma upsert_all_lookup rows db k :
  upsert_all rows db !! k =
    match stored k rows with
    | Some v => Some (sqlite_text v)
    | None => db !! k
    end.
Proof.
  unfold upsert_all. revert db.
  induction rows as [|[k' v] rows IH]; intros db; simpl; [done|].
  rewrite IH. destruct (stored k rows); [done|].
  unfold insert_or_replace. simpl. case_decide.
  - subst. by rewrite lookup_insert_eq.
  - by rewrite lookup_insert_ne.
Qed.

Lemma upsert_all_absent rows db k :
  k ∉ rows.*1 → upsert_all rows db !! k = db !! k.
Proof.
  intros H. apply stored_None in H. by rewrite upsert_all_lookup, H.
Qed.

Lemma dict_of_rows_map_to_list (db : table) :
  dict_of_rows (map_to_list db) = db.
Proof.
  assert (∀ rows (d : gmap string value) k,
    foldl (λ d row, <[row.1 := row.2]> d) d rows !! k =
      match stored k rows with Some v => Some v | None => d !! k end) as Hfold.
  { induction rows as [|[k' v] rows IH]; intros d k; simpl; [done|].
    rewrite IH. destruct (stored k rows); [done|]. case_decide.
    - subst. by rewrite lookup_insert_eq.
    - by rewrite lookup_insert_ne. }
  apply map_eq. intros k. unfold dict_of_rows.
  rewrite Hfold, stored_map_to_list, lookup_empty. by destruct (db !! k).
Qed.

End upsert.

(** ** Looking a key up *)

Section lookup.

Implicit Types (l : list (string * value)) (d : gmap string value).
Implicit Types (st : Cacheman) (K : string) (v : value).

Lemma list_get_absent l K : K ∉ l.*1 → list_get l K = VNone.
Proof.
  induction l as [|[k v] l IH]; simpl; [done|].
  rewrite not_elem_of_cons. intros [Hne Hl].
  rewrite decide_False by congruence. auto.
Qed.

Lemma list_get_app_absent l1 l2 K :
  K ∉ l1.*1 → list_get (l1 ++ l2) K = list_get l2 K.
Proof.
  induction l1 as [|[k v] l1 IH]; simpl; [done|].
  rewrite not_elem_of_cons. intros [Hne Hl].
  rewrite decide_False by congruence. auto.
Qed.

Lemma list_get_first l1 l2 K v :
  K ∉ l1.*1 → list_get (l1 ++ (K, v) :: l2) K = v.
Proof.
  intros H. rewrite list_get_app_absent by done.
  simpl. by rewrite decide_True.
Qed.

(** The first entry for a key that occurs in the list. *)
Lemma first_entry l K :
  K ∈ l.*1 → ∃ l1 v l2, l = l1 ++ (K, v) :: l2 ∧ K ∉ l1.*1.
Proof.
  induction l as [|[k v] l IH]; simpl.
  - intros H. by apply elem_of_nil in H.
  - destruct (decide (k = K)) as [->|Hne].
    + intros _. exists [], v, l. split; [done | apply not_elem_of_nil].
    + intros H. apply elem_of_cons in H as [?|H]; [congruence|].
      destruct (IH H) as (l1 & w & l2 & -> & Hl1).
      exists ((k, v) :: l1), w, l2. split; [done|].
      simpl. apply not_elem_of_cons. split; [congruence | done].
Qed.

Lemma list_get_elem l K : list_get l K ≠ VNone → (K, list_get l K) ∈ l.
Proof.
  induction l as [|[k v] l IH]; simpl; [done|].
  case_decide as Hk.
  - subst. intros _. left.
  - intros H. right. auto.
Qed.

Lemma dict_keys d K : K ∈ (map_to_list d).*1 ↔ is_Some (d !! K).
Proof.
  rewrite list_elem_of_fmap. split.
  - intros ([k v] & -> & Hin). apply elem_of_map_to_list in Hin. by exists v.
  - intros [v Hv]. exists (K, v). split; [done|].
    by apply elem_of_map_to_list.
Qed.

Lemma get_backup_to_db st K : get K (backup_to_db st) = get K st.
Proof. done. Qed.

Lemma get_absent st K : K ∉ keys st → get K st = VNone.
Proof.
  unfold keys, get. destruct (_data st) as [d|l]; simpl.
  - rewrite dict_keys. intros H. unfold dict_get.
    destruct (d !! K) eqn:E; [by destruct H; eauto | done].
  - apply list_get_absent.
Qed.

Lemma get_elem st K : get K st ≠ VNone → (K, get K st) ∈ items (_data st).
Proof.
  unfold get. destruct (_data st) as [d|l]; simpl.
  - unfold dict_get, py_or. destruct (d !! K) as [v|] eqn:E; simpl; [|done].
    destruct (truthy v); [|done]. intros _. by apply elem_of_map_to_list.
  - apply list_get_elem.
Qed.

End lookup.

(** ** The list comprehensions of [remove] and [edit] *)

Section comprehensions.

Implicit Types (l : list (string * value)) (K : string) (v : value).

Lemma filter_keys_absent l K : K ∉ (filter (λ e, e.1 ≠ K) l).*1.
Proof.
  intros H. apply list_elem_of_fmap in H as (e & -> & He).
  apply list_elem_of_filter in He as [Hne _]. by apply Hne.
Qed.

Lemma filter_absent_id l K : K ∉ l.*1 → filter (λ e, e.1 ≠ K) l = l.
Proof.
  induction l as [|[k w] l IH]; simpl; [done|].
  rewrite not_elem_of_cons. intros [Hne Hl].
  rewrite filter_cons_True by (simpl; congruence). by rewrite IH.
Qed.

Lemma replace_value_keys l K v : (replace_value K v <$> l).*1 = l.*1.
Proof.
  induction l as [|[k w] l IH]; [done|].
  rewrite !fmap_cons, IH. f_equal.
  unfold replace_value. simpl. by case_decide.
Qed.

Lemma replace_value_absent_id l K v :
  K ∉ l.*1 → replace_value K v <$> l = l.
Proof.
  induction l as [|[k w] l IH]; [done|].
  rewrite !fmap_cons, not_elem_of_cons. simpl.
  intros [Hne Hl]. rewrite IH by done. f_equal.
  unfold replace_value. simpl. rewrite decide_False; [done | congruence].
Qed.

Lemma list_get_replace_value l K v :
  K ∈ l.*1 → list_get (replace_value K v <$> l) K = v.
Proof.
  induction l as [|[k w] l IH].
  - intros H. by apply elem_of_nil in H.
  - rewrite !fmap_cons. simpl. intros H. unfold replace_value at 1. simpl.
    destruct (decide (k = K)) as [->|Hne]; simpl.
    + by rewrite decide_True.
    + rewrite decide_False by done.
      apply elem_of_cons in H as [?|H]; [congruence | auto].
Qed.

Lemma replace_value_other l K v i e :
  l !! i = Some e → e.1 ≠ K → (replace_value K v <$> l) !! i = Some e.
Proof.
  intros Hi Hne. rewrite list_lookup_fmap, Hi. simpl.
  unfold replace_value. by rewrite decide_False.
Qed.

Lemma replace_value_elem_other l K v k w :
  k ≠ K → (k, w) ∈ replace_value K v <$> l ↔ (k, w) ∈ l.
Proof.
  intros Hne. rewrite list_elem_of_fmap. split.
  - intros ([k' w'] & Heq & Hin). unfold replace_value in Heq. simpl in Heq.
    case_decide; [|by rewrite Heq].
    injection Heq as -> ->. congruence.
  - intros Hin. exists (k, w). split; [|done].
    unfold replace_value. simpl. by rewrite decide_False.
Qed.

End comprehensions.

(** ** The operations of the store *)

Section operations.

Implicit Types (st : Cacheman) (K : string) (v : value).

(** An add of a key that the store does not hold, when its backup
    completes: it returns None, and get then reads the value back, in
    dict mode through its [or None]. *)
Lemma add_new_key_then_get st K v :
  K ∉ keys st →
  (add K v st).1 = RNone ∧
  get K (add K v st).2 =
    match data_type st with
    | DictT => if truthy v then v else VNone
    | ListT => v
    end.
Proof.
  intros Habs. pose proof (get_absent st K Habs) as Hget.
  unfold add. rewrite decide_False by (by intros H; apply H).
  split; [done|]. simpl. rewrite get_backup_to_db.
  unfold get, data_type, with_data, keys in *. simpl.
  destruct (_data st) as [d|l]; simpl in *.
  - unfold dict_get. by rewrite lookup_insert_eq.
  - by rewrite list_get_first.
Qed.

(** C3 (as amended): when get(K) is not None, K is in the store with that
    value, and add(K, v2) returns the KeyError value (it is returned, not
    raised) and leaves the store and the table as they were. *)
Theorem add_existing_key st K v2 :
  get K st ≠ VNone →
  (K, get K st) ∈ items (_data st) ∧
  add K v2 st = (RKeyError ("Key '" +:+ K +:+ "' already exists."), st).
Proof.
  intros H. split; [by apply get_elem|].
  unfold add. by rewrite decide_True.
Qed.

(** C5 (as amended): in dict mode get(K) is the stored value when that
    value is truthy, and None exactly when K is absent or its value is
    falsy; in list mode get(K) is the value of the first entry for K as
    it is, falsy or not, and None exactly when no entry has key K or
    that first value is None. *)
Theorem get_spec st K :
  match _data st with
  | Dict d =>
      (∀ v, d !! K = Some v → truthy v = true → get K st = v) ∧
      (get K st = VNone ↔
         d !! K = None ∨ ∃ v, d !! K = Some v ∧ truthy v = false)
  | Seq l =>
      (∀ l1 v l2, l = l1 ++ (K, v) :: l2 → K ∉ l1.*1 → get K st = v) ∧
      (get K st = VNone ↔
         K ∉ l.*1 ∨ ∃ l1 l2, l = l1 ++ (K, VNone) :: l2 ∧ K ∉ l1.*1)
  end.
Proof.
  unfold get. destruct (_data st) as [d|l].
  - unfold dict_get, py_or. split.
    + intros v -> Hv. simpl. by rewrite Hv.
    + destruct (d !! K) as [v|]; simpl.
      * destruct (truthy v) eqn:Hv.
        -- split.
           ++ intros ->. discriminate.
           ++ intros [? | (w & [= <-] & Hw)]; [done | congruence].
        -- split; [|done]. intros _. right. eauto.
      * split; [by left | done].
  - split.
    + intros l1 v l2 -> Hl1. by apply list_get_first.
    + split.
      * intros Hnone. destruct (decide (K ∈ l.*1)) as [Hin|]; [|by left].
        right. destruct (first_entry l K Hin) as (l1 & v & l2 & -> & Hl1).
        rewrite list_get_first in Hnone by done. subst. eauto.
      * intros [Habs | (l1 & l2 & -> & Hl1)].
        -- by apply list_get_absent.
        -- by apply list_get_first.
Qed.

(** After a remove the key is gone for get, and a remove of an absent
    key leaves the entries alone. *)
Lemma remove_then_get st K :
  get K (remove K st) = VNone ∧
  (K ∉ keys st → _data (remove K st) = _data st).
Proof.
  unfold remove, keys. rewrite get_backup_to_db.
  unfold get, with_data. simpl. destruct (_data st) as [d|l]; simpl.
  - split.
    + unfold dict_get. case_decide as Hin.
      * by rewrite lookup_delete_eq.
      * destruct (d !! K) eqn:E; [by destruct Hin; eauto | done].
    + rewrite dict_keys. intros Habs. by rewrite decide_False.
  - split.
    + apply list_get_absent, filter_keys_absent.
    + intros Habs. by rewrite filter_absent_id.
Qed.

(** What an edit does to the store: the value of a present key, the
    entries of other keys, and an absent key. *)
Lemma edit_then_get st K v2 :
  (K ∈ keys st →
     get K (edit K v2 st) =
       match data_type st with
       | DictT => if truthy v2 then v2 else VNone
       | ListT => v2
       end) ∧
  (∀ k v, k ≠ K →
     (k, v) ∈ items (_data (edit K v2 st)) ↔ (k, v) ∈ items (_data st)) ∧
  (∀ l, _data st = Seq l →
     ∃ l', _data (edit K v2 st) = Seq l' ∧ l'.*1 = l.*1 ∧
           ∀ i e, l !! i = Some e → e.1 ≠ K → l' !! i = Some e) ∧
  (K ∉ keys st → _data (edit K v2 st) = _data st).
Proof.
  unfold edit, keys, data_type. rewrite get_backup_to_db.
  unfold get, with_data. simpl. destruct (_data st) as [d|l]; simpl.
  - repeat split.
    + rewrite dict_keys. intros Hin. rewrite decide_True by done.
      unfold dict_get. by rewrite lookup_insert_eq.
    + case_decide; [|done]. rewrite !elem_of_map_to_list.
      by rewrite lookup_insert_ne.
    + case_decide; [|done]. rewrite !elem_of_map_to_list.
      by rewrite lookup_insert_ne.
    + done.
    + rewrite dict_keys. intros Habs. by rewrite decide_False.
  - repeat split.
    + apply list_get_replace_value.
    + by apply replace_value_elem_other.
    + by apply replace_value_elem_other.
    + intros l0 [= <-]. eexists. split; [done|]. split.
      * apply replace_value_keys.
      * intros i e. apply replace_value_other.
    + intros Habs. by rewrite replace_value_absent_id.
Qed.

End operations.

(** ** Search *)

Section searching.

Implicit Types (st : Cacheman) (q : string) (e : string * value).

Lemma matches_spec q e :
  matches q e = true ↔ is_substring q e.1 ∨ is_substring q (str e.2).
Proof. unfold matches. by rewrite orb_true_iff, !py_in_spec. Qed.

(** C7: search(q) returns the entries of the store for which q is a
    substring of the key or of str(value), all of them and no others:
    in dict mode the dict of those entries, in list mode the list of
    those entries in their order.  Characters are compared as they
    are. *)
Theorem search_spec st q :
  (∀ k v, (k, v) ∈ items (search q st) ↔
            (k, v) ∈ items (_data st) ∧
            (is_substring q k ∨ is_substring q (str v))) ∧
  match _data st with
  | Dict d =>
      ∃ d', search q st = Dict d' ∧
            ∀ k v, d' !! k = Some v ↔
                     d !! k = Some v ∧
                     (is_substring q k ∨ is_substring q (str v))
  | Seq l =>
      search q st =
        Seq (filter (λ e, is_substring q e.1 ∨ is_substring q (str e.2)) l)
  end.
Proof.
  unfold search. destruct (_data st) as [d|l]; simpl.
  - assert (∀ k v,
      filter (λ e, matches q e = true) d !! k = Some v ↔
        d !! k = Some v ∧ (is_substring q k ∨ is_substring q (str v))) as Hd.
    { intros k v. rewrite map_lookup_filter_Some.
      by rewrite (matches_spec q (k, v)). }
    split; [|eauto].
    intros k v. by rewrite !elem_of_map_to_list.
  - split.
    + intros k v. rewrite list_elem_of_filter, (matches_spec q (k, v)).
      simpl. tauto.
    + f_equal. apply list_filter_iff. intros e. apply matches_spec.
Qed.

(** The examples of the specification. *)
Example search_alpha_beta :
  let st := mkCacheman true
              (Dict {[ "alpha" := VStr "1"; "beta" := VStr "2" ]}) ∅ in
  search "a" st = Dict {[ "alpha" := VStr "1"; "beta" := VStr "2" ]} ∧
  search "2" st = Dict {[ "beta" := VStr "2" ]}.
Proof. split; vm_compute; reflexivity. Qed.

Example search_is_case_sensitive :
  search "A" (mkCacheman true (Seq [("alpha", VStr "1"); ("Alps", VInt 10)]) ∅)
  = Seq [("Alps", VInt 10)].
Proof. vm_compute. reflexivity. Qed.

End searching.

(** ** Backups *)

Section backups.

Implicit Types (st : Cacheman) (K : string) (v : value).

Lemma keys_iter_backup n st : keys (Nat.iter n backup_to_db st) = keys st.
Proof. induction n as [|n IH]; [done|]. simpl. by rewrite <- IH. Qed.

Lemma keys_remove st K : K ∉ keys (remove K st).
Proof.
  unfold remove, keys, with_data. simpl. destruct (_data st) as [d|l]; simpl.
  - rewrite dict_keys. case_decide as Hin.
    + rewrite lookup_delete_eq. by intros [? ?].
    + done.
  - apply filter_keys_absent.
Qed.

Lemma backup_to_db_absent st K :
  K ∉ keys st → cache (backup_to_db st) !! K = cache st !! K.
Proof. intros H. simpl. by apply upsert_all_absent. Qed.

(** C6: backup_to_db writes one row for each key of the store (the value
    in its text form) and touches nothing else: the row of a key that
    the store does not hold is the same after the backup, so the row
    of a removed key is still there after remove's own backup and after
    any number of later ones. *)
Theorem backup_to_db_never_deletes st K :
  (K ∉ keys st → cache (backup_to_db st) !! K = cache st !! K) ∧
  (∀ v, stored K (items (_data st)) = Some v →
        cache (backup_to_db st) !! K = Some (sqlite_text v)) ∧
  (∀ n, cache (Nat.iter n backup_to_db (remove K st)) !! K = cache st !! K) ∧
  _data (backup_to_db st) = _data st.
Proof.
  split; [apply backup_to_db_absent|]. split; [|split; [|done]].
  - intros v Hv. simpl. by rewrite upsert_all_lookup, Hv.
  - intros n. induction n as [|n IH]; simpl.
    + apply upsert_all_absent. apply (keys_remove st K).
    + rewrite <- IH. apply upsert_all_absent.
      change (K ∉ keys (Nat.iter n backup_to_db (remove K st))).
      rewrite keys_iter_backup. apply keys_remove.
Qed.

End backups.

(** ** The list scenario *)

(** C8: in list mode, from an empty store, add("a",1), add("b",2),
    edit("a",9) leave get_all() equal to [("a",9),("b",2)]. *)
Theorem list_scenario (loading : bool) (db : table) :
  get_all (run [Add "a" (VInt 1); Add "b" (VInt 2); Edit "a" (VInt 9)]
               (mkCacheman loading (Seq []) db))
  = Seq [("a", VInt 9); ("b", VInt 2)].
Proof. reflexivity. Qed.

Example fresh_list_run :
  get_all (run [Add "a" (VInt 1); Add "b" (VInt 2); Edit "a" (VInt 9)]
               (__init__ None ListT true))
  = Seq [("a", VInt 9); ("b", VInt 2)].
Proof. vm_compute. reflexivity. Qed.

(** ** Invariants of the store *)

Lemma data_type_step st o : data_type (step st o) = data_type st.
Proof.
  unfold data_type. destruct o as [k v|k v|k]; simpl.
  - unfold add. case_decide; simpl; [done|]. by destruct (_data st).
  - by destruct (_data st).
  - by destruct (_data st).
Qed.

Lemma data_type_run ops st : data_type (run ops st) = data_type st.
Proof.
  revert st. induction ops as [|o ops IH]; intros st; [done|].
  simpl. by rewrite IH, data_type_step.
Qed.

Lemma step_backup st o :
  step st o = st ∨
  step st o = backup_to_db (with_data st (_data (step st o))).
Proof.
  destruct o as [k v|k v|k]; simpl.
  - unfold add. case_decide; [by left | by right].
  - by right.
  - by right.
Qed.

Section invariants.

(** A property of the values in use that rules [None] out. *)
Variable P : value → Prop.
Hypothesis P_not_None : ∀ v, P v → v ≠ VNone.

Lemma good_list_get l K :
  Forall (λ e : string * value, P e.2) l → list_get l K = VNone → K ∉ l.*1.
Proof.
  intros Hall Hget Hin.
  destruct (first_entry l K Hin) as (l1 & v & l2 & -> & Hl1).
  rewrite list_get_first in Hget by done.
  apply Forall_app in Hall as [_ Hall]. apply Forall_cons in Hall as [Hv _].
  by apply (P_not_None v).
Qed.

Lemma good_dict (d : gmap string value) :
  (∀ k v, d !! k = Some v → P v) → good P (Dict d).
Proof.
  intros H. split; [apply NoDup_fst_map_to_list|].
  apply Forall_forall. intros [k v] Hin.
  apply elem_of_map_to_list in Hin. simpl. eauto.
Qed.

Lemma good_dict_inv (d : gmap string value) k v :
  good P (Dict d) → d !! k = Some v → P v.
Proof.
  intros [_ Hall] Hk. rewrite Forall_forall in Hall.
  apply (Hall (k, v)). by apply elem_of_map_to_list.
Qed.

Lemma good_insert (d : gmap string value) k v :
  P v → good P (Dict d) → good P (Dict (<[k := v]> d)).
Proof.
  intros Hv Hd. apply good_dict. intros k' v'.
  rewrite lookup_insert. case_decide.
  - by intros [= <-].
  - by apply good_dict_inv.
Qed.

Lemma NoDup_filter_keys (Q : string * value → Prop) `{!∀ e, Decision (Q e)}
    (l : list (string * value)) :
  NoDup l.*1 → NoDup (filter Q l).*1.
Proof.
  induction l as [|e l IH]; [done|].
  rewrite fmap_cons, NoDup_cons. intros [He Hl].
  destruct (decide (Q e)).
  - rewrite filter_cons_True by done. rewrite fmap_cons, NoDup_cons.
    split; [|auto]. intros Hin. apply He.
    apply list_elem_of_fmap in Hin as (e' & -> & He').
    apply list_elem_of_filter in He' as [_ He'].
    apply list_elem_of_fmap. eauto.
  - rewrite filter_cons_False by done. auto.
Qed.

Lemma step_good st o :
  from_option P True (op_value o) → good P (_data st) → good P (_data (step st o)).
Proof.
  intros Hv Hgood. destruct o as [k v|k v|k]; simpl in *.
  - unfold add. case_decide as Hget; simpl; [done|].
    unfold get in Hget.
    destruct (_data st) as [d|l]; simpl.
    + by apply good_insert.
    + destruct Hgood as [Hnd Hall]. simpl in *.
      pose proof (good_list_get l k Hall Hget) as Habs.
      split; simpl.
      * rewrite fmap_app. apply NoDup_app. split; [done|]. split.
        -- intros x Hx Hx'. simpl in Hx'.
           apply list_elem_of_singleton in Hx'. by subst.
        -- apply NoDup_singleton.
      * apply Forall_app. split; [done|]. by apply Forall_singleton.
  - destruct (_data st) as [d|l]; simpl.
    + case_decide; [by apply good_insert | done].
    + destruct Hgood as [Hnd Hall]. simpl in *.
      split; simpl.
      * by rewrite replace_value_keys.
      * apply Forall_fmap. eapply Forall_impl; [exact Hall|].
        intros e He. unfold replace_value. simpl. by case_decide.
  - destruct (_data st) as [d|l]; simpl.
    + case_decide; [|done]. apply good_dict. intros k' v'.
      rewrite lookup_delete. case_decide; [done|].
      by apply good_dict_inv.
    + destruct Hgood as [Hnd Hall]. simpl in *. split; simpl.
      * by apply NoDup_filter_keys.
      * apply Forall_forall. intros e He.
        apply list_elem_of_filter in He as [_ He].
        rewrite Forall_forall in Hall. auto.
Qed.

Lemma run_good ops st :
  Forall (λ o, from_option P True (op_value o)) ops →
  good P (_data st) → good P (_data (run ops st)).
Proof.
  revert st. induction ops as [|o ops IH]; intros st Hops Hgood; [done|].
  apply Forall_cons in Hops as [Ho Hops]. simpl.
  apply IH; [done|]. by apply step_good.
Qed.

End invariants.

(** Mutations other than [remove] keep every key. *)
Lemma step_keys_mono st o K :
  add_or_edit_text o → K ∈ keys st → K ∈ keys (step st o).
Proof.
  unfold keys. destruct o as [k v|k v|k]; simpl; [| |done]; intros _.
  - unfold add. case_decide; simpl; [done|].
    destruct (_data st) as [d|l]; simpl.
    + rewrite !dict_keys, lookup_insert. case_decide; [by eauto | done].
    + rewrite fmap_app. intros Hin. apply elem_of_app. by left.
  - destruct (_data st) as [d|l]; simpl.
    + case_decide; [|done].
      rewrite !dict_keys, lookup_insert. case_decide; [by eauto | done].
    + by rewrite replace_value_keys.
Qed.

(** ** Key uniqueness *)

(** C4 (as amended): in every state reached from an empty store by add,
    edit and remove calls no two entries share a key, in dict mode
    always, and in list mode when no value that is added or written by
    edit is None. *)
Theorem keys_unique (st : Cacheman) (ops : list op) :
  items (_data st) = [] →
  (data_type st = ListT → Forall (λ o, op_value o ≠ Some VNone) ops) →
  NoDup (keys (run ops st)).
Proof.
  intros Hempty Hops. destruct (data_type st) eqn:Hdt.
  - pose proof (data_type_run ops st) as Hrun. rewrite Hdt in Hrun.
    unfold keys, data_type in *.
    destruct (_data (run ops st)); [|done]. apply NoDup_fst_map_to_list.
  - apply (run_good (λ v, v ≠ VNone)).
    + done.
    + eapply Forall_impl; [by apply Hops|].
      intros o Ho. destruct o; simpl in *; try done; intros ->; by apply Ho.
    + split; rewrite Hempty; [apply NoDup_nil_2 | apply Forall_nil_2].
Qed.

(** ** Round trip through the table *)

Section round_trip.

Implicit Types (st : Cacheman) (db : table).

Lemma is_text_not_None v : is_text v → v ≠ VNone.
Proof. by intros [s ->]. Qed.

Lemma sqlite_text_is_text v : is_text v → sqlite_text v = v.
Proof. by intros [s ->]. Qed.

(** A backup makes the table the mirror of the store when the table
    has no row of a key that the store lacks. *)
Lemma backup_mirror st :
  good is_text (_data st) →
  (∀ k, is_Some (cache st !! k) → k ∈ keys st) →
  table_mirrors (backup_to_db st).
Proof.
  intros [Hnd Hall] Hdom k v. simpl. rewrite upsert_all_lookup.
  rewrite Forall_forall in Hall. split.
  - destruct (stored k (items (_data st))) as [w|] eqn:E.
    + apply stored_elem in E. intros [= <-].
      by rewrite sqlite_text_is_text by apply (Hall (k, w) E).
    + intros Hk. apply stored_None in E. destruct E. apply Hdom. eauto.
  - intros Hin. rewrite (stored_NoDup _ k v Hnd Hin).
    by rewrite sqlite_text_is_text by apply (Hall (k, v) Hin).
Qed.

Lemma step_consistent st o :
  add_or_edit_text o → consistent st → consistent (step st o).
Proof.
  intros Ho [Hgood Hmir].
  assert (good is_text (_data (step st o))) as Hgood'.
  { apply step_good; [apply is_text_not_None | | done].
    by destruct o. }
  split; [done|].
  destruct (step_backup st o) as [-> | Heq]; [done|].
  rewrite Heq. apply backup_mirror; [done|].
  intros k [v Hk]. change (k ∈ keys (step st o)).
  apply step_keys_mono; [done|].
  apply Hmir in Hk. unfold keys. apply list_elem_of_fmap. by exists (k, v).
Qed.

Lemma run_consistent ops st :
  Forall add_or_edit_text ops → consistent st → consistent (run ops st).
Proof.
  revert st. induction ops as [|o ops IH]; intros st Hops Hst; [done|].
  apply Forall_cons in Hops as [Ho Hops]. simpl.
  apply IH; [done|]. by apply step_consistent.
Qed.

Lemma init_consistent dt loading : consistent (__init__ None dt loading).
Proof.
  destruct dt; split.
  - apply good_dict. intros k v. by rewrite lookup_empty.
  - intros k v. simpl. by rewrite elem_of_map_to_list.
  - split; [apply NoDup_nil_2 | apply Forall_nil_2].
  - intros k v. simpl. rewrite lookup_empty.
    split; [done | by intros ?%elem_of_nil].
Qed.

(** What a new instance holds after it loaded a table. *)
Lemma init_loads db dt k v :
  (k, v) ∈ items (_data (__init__ (Some db) dt true)) ↔ db !! k = Some v.
Proof.
  destruct dt; simpl; unfold fetchall.
  - rewrite dict_of_rows_map_to_list. apply elem_of_map_to_list.
  - apply elem_of_map_to_list.
Qed.

(** C1 (as amended): after any sequence of add and edit calls with text
    values, each followed by its backup, from a new store on a new
    table, the table holds exactly the key/value set of the store, and
    a new instance built on that table (allow_loading true, either
    data_type) holds the same key/value set. *)
Theorem backup_round_trip (dt dt' : dtype) (loading : bool) (ops : list op) :
  Forall add_or_edit_text ops →
  table_mirrors (run ops (__init__ None dt loading)) ∧
  same_entries
    (_data (__init__ (Some (cache (run ops (__init__ None dt loading)))) dt' true))
    (_data (run ops (__init__ None dt loading))).
Proof.
  intros Hops.
  destruct (run_consistent ops _ Hops (init_consistent dt loading)) as [_ Hmir].
  split; [done|]. intros k v. rewrite init_loads. apply Hmir.
Qed.

End round_trip.

(** ** Concrete runs *)

(** C1, as stated, fails: add("a","1") then remove("a") on a new dict
    store leaves the store empty while the table still has the row of
    "a", and a new instance on that table holds "a" again. *)
Lemma removed_key_comes_back :
  get_all (run [Add "a" (VStr "1"); Remove "a"] (__init__ None DictT true))
    = Dict ∅ ∧
  get_all (__init__
             (Some (cache (run [Add "a" (VStr "1"); Remove "a"]
                               (__init__ None DictT true))))
             DictT true)
    = Dict {[ "a" := VStr "1" ]} ∧
  ¬ table_mirrors (run [Add "a" (VStr "1"); Remove "a"] (__init__ None DictT true)) ∧
  ¬ same_entries
      (_data (__init__
                (Some (cache (run [Add "a" (VStr "1"); Remove "a"]
                                  (__init__ None DictT true))))
                DictT true))
      (_data (run [Add "a" (VStr "1"); Remove "a"] (__init__ None DictT true))).
Proof.
  assert (cache (run [Add "a" (VStr "1"); Remove "a"] (__init__ None DictT true))
            !! "a" = Some (VStr "1")) as Hrow by (vm_compute; reflexivity).
  assert (items (_data (run [Add "a" (VStr "1"); Remove "a"]
                            (__init__ None DictT true))) = []) as Hitems
    by (vm_compute; reflexivity).
  split; [vm_compute; reflexivity|]. split; [vm_compute; reflexivity|]. split.
  - intros Hmir. apply Hmir in Hrow. rewrite Hitems in Hrow.
    by apply elem_of_nil in Hrow.
  - intros Hsame. specialize (Hsame "a" (VStr "1")).
    rewrite Hitems, init_loads in Hsame. apply Hsame in Hrow.
    by apply elem_of_nil in Hrow.
Qed.

(** A number does not come back as a number: the column is text. *)
Example int_value_reloaded_as_text :
  get_all (run [Add "a" (VInt 1)] (__init__ None DictT true))
    = Dict {[ "a" := VInt 1 ]} ∧
  get_all (__init__
             (Some (cache (run [Add "a" (VInt 1)] (__init__ None DictT true))))
             DictT true)
    = Dict {[ "a" := VStr "1" ]}.
Proof. split; vm_compute; reflexivity. Qed.

Lemma backup_round_trip_witness :
  Forall add_or_edit_text
    [Add "a" (VStr "1"); Add "b" (VStr ""); Add "b" (VStr "2"); Edit "a" (VStr "9")] ∧
  table_mirrors
    (run [Add "a" (VStr "1"); Add "b" (VStr ""); Add "b" (VStr "2"); Edit "a" (VStr "9")]
         (__init__ None ListT true)) ∧
  same_entries
    (_data (__init__
       (Some (cache
          (run [Add "a" (VStr "1"); Add "b" (VStr ""); Add "b" (VStr "2"); Edit "a" (VStr "9")]
               (__init__ None ListT true))))
       DictT true))
    (_data
       (run [Add "a" (VStr "1"); Add "b" (VStr ""); Add "b" (VStr "2"); Edit "a" (VStr "9")]
            (__init__ None ListT true))).
Proof.
  assert (Forall add_or_edit_text
            [Add "a" (VStr "1"); Add "b" (VStr ""); Add "b" (VStr "2");
             Edit "a" (VStr "9")]) as Hops
    by (repeat constructor; simpl; unfold is_text; eauto).
  split; [exact Hops|].
  exact (backup_round_trip ListT DictT true _ Hops).
Defined.

(** A falsy value stored in a dict is not read back by get. *)
Example add_then_get_falsy_dict :
  ("a" ∉ keys (__init__ None DictT true)) ∧
  (add "a" (VInt 0) (__init__ None DictT true)).1 = RNone ∧
  get "a" (add "a" (VInt 0) (__init__ None DictT true)).2 = VNone ∧
  get "a" (add "a" (VInt 0) (__init__ None DictT true)).2 ≠ VInt 0.
Proof.
  split; [|split; [|split]].
  - unfold keys. simpl. rewrite map_to_list_empty. apply not_elem_of_nil.
  - vm_compute. reflexivity.
  - vm_compute. reflexivity.
  - vm_compute. discriminate.
Qed.

(** C3, as stated, fails in dict mode for a key stored with a falsy
    value: after add("a", 0), add("a", 5) returns None and "a" maps
    to 5. *)
Lemma add_overwrites_falsy_dict :
  "a" ∈ keys (add "a" (VInt 0) (__init__ None DictT true)).2 ∧
  get_all (add "a" (VInt 0) (__init__ None DictT true)).2
    = Dict {[ "a" := VInt 0 ]} ∧
  (add "a" (VInt 5) (add "a" (VInt 0) (__init__ None DictT true)).2).1 = RNone ∧
  get_all (add "a" (VInt 5) (add "a" (VInt 0) (__init__ None DictT true)).2).2
    = Dict {[ "a" := VInt 5 ]}.
Proof.
  split; [|split; [|split]]; try (vm_compute; reflexivity).
  unfold keys. apply dict_keys. vm_compute. eauto.
Qed.

Lemma add_existing_key_witness :
  get "a" (mkCacheman true (Dict {[ "a" := VStr "x" ]}) ∅) ≠ VNone ∧
  ("a", get "a" (mkCacheman true (Dict {[ "a" := VStr "x" ]}) ∅))
    ∈ items (_data (mkCacheman true (Dict {[ "a" := VStr "x" ]}) ∅)) ∧
  add "a" (VStr "y") (mkCacheman true (Dict {[ "a" := VStr "x" ]}) ∅)
    = (RKeyError ("Key '" +:+ "a" +:+ "' already exists."),
       mkCacheman true (Dict {[ "a" := VStr "x" ]}) ∅).
Proof.
  assert (get "a" (mkCacheman true (Dict {[ "a" := VStr "x" ]}) ∅) ≠ VNone)
    as Hget by (vm_compute; discriminate).
  split; [exact Hget|].
  exact (add_existing_key (mkCacheman true (Dict {[ "a" := VStr "x" ]}) ∅)
           "a" (VStr "y") Hget).
Defined.

(** C4, as stated, fails in list mode: after add("a", None), add("a", 1)
    is accepted and the list holds the key "a" twice. *)
Lemma duplicate_keys_after_None :
  get_all (run [Add "a" VNone; Add "a" (VInt 1)] (__init__ None ListT true))
    = Seq [("a", VNone); ("a", VInt 1)] ∧
  ¬ NoDup (keys (run [Add "a" VNone; Add "a" (VInt 1)] (__init__ None ListT true))).
Proof.
  split; [vm_compute; reflexivity|].
  assert (keys (run [Add "a" VNone; Add "a" (VInt 1)] (__init__ None ListT true))
          = ["a"; "a"]) as -> by (vm_compute; reflexivity).
  intros H. apply NoDup_cons in H as [H _]. apply H. left.
Qed.

Lemma keys_unique_witness :
  items (_data (__init__ None ListT true)) = [] ∧
  (data_type (__init__ None ListT true) = ListT →
   Forall (λ o, op_value o ≠ Some VNone)
     [Add "a" (VInt 0); Add "a" (VInt 1); Edit "a" (VStr ""); Remove "b"]) ∧
  NoDup (keys (run [Add "a" (VInt 0); Add "a" (VInt 1); Edit "a" (VStr ""); Remove "b"]
                   (__init__ None ListT true))).
Proof.
  assert (Forall (λ o, op_value o ≠ Some VNone)
            [Add "a" (VInt 0); Add "a" (VInt 1); Edit "a" (VStr ""); Remove "b"])
    as Hops by (repeat constructor; simpl; discriminate).
  split; [reflexivity|]. split; [intros _; exact Hops|].
  exact (keys_unique (__init__ None ListT true) _ eq_refl (λ _, Hops)).
Defined.

(** C5, as stated, fails in list mode: a stored 0 is falsy, and get
    returns it, not None. *)
Lemma get_keeps_falsy_in_list :
  get_all (add "a" (VInt 0) (__init__ None ListT true)).2 = Seq [("a", VInt 0)] ∧
  truthy (VInt 0) = false ∧
  get "a" (add "a" (VInt 0) (__init__ None ListT true)).2 = VInt 0 ∧
  get "a" (add "a" (VInt 0) (__init__ None ListT true)).2 ≠ VNone.
Proof.
  split; [|split; [|split]]; try (vm_compute; reflexivity).
  vm_compute. discriminate.
Qed.

Lemma get_spec_witness :
  (get "a" (mkCacheman true (Dict {[ "a" := VInt 0 ]}) ∅) = VNone ↔
     ({[ "a" := VInt 0 ]} : gmap string value) !! "a" = None ∨
     ∃ v, ({[ "a" := VInt 0 ]} : gmap string value) !! "a" = Some v ∧
          truthy v = false) ∧
  get "a" (mkCacheman true (Seq [("b", VInt 1); ("a", VStr ""); ("a", VInt 2)]) ∅)
    = VStr "".
Proof.
  split.
  - exact (proj2 (get_spec (mkCacheman true (Dict {[ "a" := VInt 0 ]}) ∅) "a")).
  - refine (proj1 (get_spec
      (mkCacheman true (Seq [("b", VInt 1); ("a", VStr ""); ("a", VInt 2)]) ∅) "a")
      [("b", VInt 1)] (VStr "") [("a", VInt 2)] eq_refl _).
    simpl. intros H. apply list_elem_of_singleton in H. discriminate.
Defined.

Lemma backup_to_db_never_deletes_witness :
  ("a" ∉ keys (mkCacheman true (Seq [("b", VInt 2)]) {[ "a" := VStr "1" ]})) ∧
  cache (backup_to_db (mkCacheman true (Seq [("b", VInt 2)]) {[ "a" := VStr "1" ]}))
    !! "a" = Some (VStr "1") ∧
  cache (backup_to_db (mkCacheman true (Seq [("b", VInt 2)]) {[ "a" := VStr "1" ]}))
    !! "b" = Some (VStr "2") ∧
  cache (Nat.iter 3 backup_to_db
           (remove "a" (run [Add "a" (VStr "1")] (__init__ None DictT true))))
    !! "a" = Some (VStr "1").
Proof.
  assert ("a" ∉ keys (mkCacheman true (Seq [("b", VInt 2)]) {[ "a" := VStr "1" ]}))
    as Habs.
  { unfold keys. simpl. intros H. apply list_elem_of_singleton in H. discriminate. }
  split; [exact Habs|]. split; [|split].
  - exact (proj1 (backup_to_db_never_deletes
             (mkCacheman true (Seq [("b", VInt 2)]) {[ "a" := VStr "1" ]}) "a") Habs).
  - exact (proj1 (proj2 (backup_to_db_never_deletes
             (mkCacheman true (Seq [("b", VInt 2)]) {[ "a" := VStr "1" ]}) "b"))
             (VInt 2) eq_refl).
  - exact (proj1 (proj2 (proj2 (backup_to_db_never_deletes
             (run [Add "a" (VStr "1")] (__init__ None DictT true)) "a"))) 3).
Defined.

(** A falsy value written by edit in a dict is not read back by get. *)
Example edit_then_get_falsy_dict :
  ("a" ∈ keys (mkCacheman true (Dict {[ "a" := VInt 1 ]}) ∅)) ∧
  get_all (edit "a" (VInt 0) (mkCacheman true (Dict {[ "a" := VInt 1 ]}) ∅))
    = Dict {[ "a" := VInt 0 ]} ∧
  get "a" (edit "a" (VInt 0) (mkCacheman true (Dict {[ "a" := VInt 1 ]}) ∅)) = VNone ∧
  get "a" (edit "a" (VInt 0) (mkCacheman true (Dict {[ "a" := VInt 1 ]}) ∅)) ≠ VInt 0.
Proof.
  split; [|split; [|split]]; try (vm_compute; reflexivity).
  - unfold keys. apply dict_keys. vm_compute. eauto.
  - vm_compute. discriminate.
Qed.

(** ** More about backups *)

Section more_backups.

Implicit Types (rows : list (string * value)) (db : table).
Implicit Types (st : Cacheman) (k : string) (o : op).

(** Rows written by one loop are overwritten by a later loop over at
    least the same keys. *)
Lemma upsert_all_absorb rows1 rows2 db :
  (∀ k, k ∈ rows1.*1 → k ∈ rows2.*1) →
  upsert_all rows2 (upsert_all rows1 db) = upsert_all rows2 db.
Proof.
  intros Hsub. apply map_eq. intros k. rewrite !upsert_all_lookup.
  destruct (stored k rows2) eqn:E2; [done|].
  destruct (stored k rows1) eqn:E1; [|done].
  apply stored_None in E2. destruct E2. apply Hsub.
  destruct (decide (k ∈ rows1.*1)) as [|Hn]; [done|].
  apply stored_None in Hn. congruence.
Qed.

Lemma backup_twice st : backup_to_db (backup_to_db st) = backup_to_db st.
Proof.
  unfold backup_to_db. simpl. f_equal. by apply upsert_all_absorb.
Qed.

Lemma synced_iff st :
  synced st ↔
  ∀ k v, stored k (items (_data st)) = Some v → cache st !! k = Some (sqlite_text v).
Proof.
  unfold synced. split.
  - intros Hs k v Hk. rewrite <- Hs. simpl. by rewrite upsert_all_lookup, Hk.
  - intros H. destruct st as [al c db]. unfold backup_to_db. simpl in *.
    f_equal. apply map_eq. intros k. rewrite upsert_all_lookup.
    destruct (stored k (items c)) eqn:E; [|done]. symmetry. auto.
Qed.

Lemma step_synced st o : synced st → synced (step st o).
Proof.
  intros Hs. destruct (step_backup st o) as [-> | Heq]; [done|].
  unfold synced. rewrite Heq. apply backup_twice.
Qed.

Lemma run_synced ops st : synced st → synced (run ops st).
Proof.
  revert st. induction ops as [|o ops IH]; intros st Hs; [done|].
  simpl. apply IH. by apply step_synced.
Qed.

Lemma init_synced (file : option table) dt loading :
  from_option sqlite_table True file → synced (__init__ file dt loading).
Proof.
  intros Hfile. apply synced_iff. intros k v.
  destruct file as [db|], loading, dt; simpl; unfold fetchall;
    rewrite ?dict_of_rows_map_to_list, ?stored_map_to_list, ?lookup_empty;
    try done.
  - intros Hk. rewrite Hk. f_equal. symmetry. by apply (Hfile k).
  - intros Hk. rewrite Hk. f_equal. symmetry. by apply (Hfile k).
Qed.

(** X1: a backup right after a backup changes nothing, however often it
    is repeated; so a turn of the periodic loop that falls between a
    mutation and the backup of the same call, or after it, is absorbed. *)
Theorem backup_to_db_idempotent st (n : nat) :
  Nat.iter (S n) backup_to_db st = backup_to_db st.
Proof.
  induction n as [|n IH]; [done|].
  change (backup_to_db (Nat.iter (S n) backup_to_db st) = backup_to_db st).
  rewrite IH. apply backup_twice.
Qed.

(** When every backup completes, the table holds the text form of every
    entry of the store after any sequence of calls. *)
Lemma calls_leave_nothing_to_back_up (file : option table) dt loading ops :
  from_option sqlite_table True file →
  backup_to_db (run ops (__init__ file dt loading))
    = run ops (__init__ file dt loading) ∧
  ∀ k v, stored k (items (_data (run ops (__init__ file dt loading)))) = Some v →
         cache (run ops (__init__ file dt loading)) !! k = Some (sqlite_text v).
Proof.
  intros Hfile.
  pose proof (run_synced ops _ (init_synced file dt loading Hfile)) as Hs.
  split; [exact Hs | by apply synced_iff].
Qed.

Lemma run_events_synced adl evs st :
  synced st → run_events adl evs st = run (calls evs) st.
Proof.
  revert st. induction evs as [|[o|] evs IH]; intros st Hs; [done| |].
  - simpl. apply IH. by apply step_synced.
  - simpl. unfold _start_backup_thread.
    destruct adl; [rewrite Hs|]; by apply IH.
Qed.

(** X3: the turns of the periodic backup thread make no difference:
    whatever allow_data_loss is and wherever the turns fall between the
    calls, the store and the table end up as the calls alone leave
    them. *)
Theorem periodic_backups_change_nothing
    (allow_data_loss : bool) (file : option table) dt loading evs :
  from_option sqlite_table True file →
  run_events allow_data_loss evs (__init__ file dt loading)
    = run (calls evs) (__init__ file dt loading).
Proof.
  intros Hfile. apply run_events_synced. by apply init_synced.
Qed.

Lemma step_rows_kept st o k :
  is_Some (cache st !! k) → is_Some (cache (step st o) !! k).
Proof.
  intros Hk. destruct (step_backup st o) as [-> | Heq]; [done|].
  rewrite Heq. simpl. rewrite upsert_all_lookup.
  destruct (stored k _); [by eauto | done].
Qed.

(** X4: no call ever deletes a row: a key that has a row in the table
    has one after any sequence of add, edit and remove calls. *)
Theorem rows_are_never_deleted ops st k :
  is_Some (cache st !! k) → is_Some (cache (run ops st) !! k).
Proof.
  revert st. induction ops as [|o ops IH]; intros st Hk; [done|].
  simpl. apply IH. by apply step_rows_kept.
Qed.

Lemma step_absent st o k : k ∉ keys st → ¬ adds k o → k ∉ keys (step st o).
Proof.
  unfold keys. intros Habs Ho. destruct o as [k' v|k' v|k']; simpl in *.
  - unfold add. case_decide; simpl; [done|].
    destruct (_data st) as [d|l]; simpl in *.
    + rewrite dict_keys in *. by rewrite lookup_insert_ne.
    + rewrite fmap_app. apply not_elem_of_app. split; [done|].
      simpl. intros Hin. apply list_elem_of_singleton in Hin. by apply Ho.
  - destruct (_data st) as [d|l]; simpl in *.
    + case_decide as Hin; [|done]. rewrite dict_keys in *.
      rewrite lookup_insert. case_decide; [by subst | done].
    + by rewrite replace_value_keys.
  - destruct (_data st) as [d|l]; simpl in *.
    + case_decide as Hin; [|done]. rewrite dict_keys in *.
      rewrite lookup_delete. case_decide; [by intros [? ?] | done].
    + intros Hin. apply Habs.
      apply list_elem_of_fmap in Hin as (e & -> & He).
      apply list_elem_of_filter in He as [_ He].
      apply list_elem_of_fmap. eauto.
Qed.

Lemma step_absent_row st o k :
  k ∉ keys (step st o) → cache (step st o) !! k = cache st !! k.
Proof.
  intros Habs. destruct (step_backup st o) as [Heq | Heq].
  - by rewrite Heq.
  - rewrite Heq. simpl. by apply upsert_all_absent.
Qed.

(** X5: a key that the store does not hold and that no call adds stays
    out of the store, get returns None for it, and its row in the table
    (or the lack of one) is exactly as before, through any sequence of
    calls. *)
Theorem untouched_key_keeps_row ops st k :
  k ∉ keys st →
  Forall (λ o, ¬ adds k o) ops →
  (k ∉ keys (run ops st)) ∧
  get k (run ops st) = VNone ∧
  cache (run ops st) !! k = cache st !! k.
Proof.
  revert st. induction ops as [|o ops IH]; intros st Habs Hops.
  - split; [done|]. split; [by apply get_absent | done].
  - apply Forall_cons in Hops as [Ho Hops]. simpl.
    pose proof (step_absent st o k Habs Ho) as Habs'.
    destruct (IH (step st o) Habs' Hops) as (H1 & H2 & H3).
    split; [done|]. split; [done|].
    rewrite H3. by apply step_absent_row.
Qed.

End more_backups.

(** ** How calls compose *)

Section composition.

Implicit Types (l : list (string * value)) (d : gmap string value).
Implicit Types (st : Cacheman) (K k : string) (v : value) (o : op).

Lemma list_get_app_other l K k v :
  k ≠ K → list_get (l ++ [(k, v)]) K = list_get l K.
Proof.
  intros Hne. induction l as [|[k' w] l IH]; simpl.
  - rewrite decide_False by done. done.
  - by rewrite IH.
Qed.

Lemma list_get_replace_other l K k v :
  k ≠ K → list_get (replace_value k v <$> l) K = list_get l K.
Proof.
  intros Hne. induction l as [|[k' w] l IH]; [done|].
  rewrite fmap_cons. unfold replace_value at 1. simpl.
  destruct (decide (k' = k)) as [->|Hk]; simpl; rewrite IH.
  - by rewrite !decide_False by done.
  - done.
Qed.

Lemma list_get_filter_other l K k :
  k ≠ K → list_get (filter (λ e, e.1 ≠ k) l) K = list_get l K.
Proof.
  intros Hne. induction l as [|[k' w] l IH]; [done|].
  destruct (decide (k' = k)) as [->|Hk].
  - rewrite filter_cons_False by (simpl; auto). simpl.
    rewrite decide_False by done. done.
  - rewrite filter_cons_True by done. simpl. by rewrite IH.
Qed.

Lemma get_step_other st o K : op_key o ≠ K → get K (step st o) = get K st.
Proof.
  intros Hne. destruct o as [k v|k v|k]; simpl in *.
  - unfold add. case_decide; simpl; [done|]. rewrite get_backup_to_db.
    unfold get, with_data. simpl. destruct (_data st) as [d|l]; simpl.
    + unfold dict_get. by rewrite lookup_insert_ne.
    + by apply list_get_app_other.
  - unfold edit. rewrite get_backup_to_db.
    unfold get, with_data. simpl. destruct (_data st) as [d|l]; simpl.
    + case_decide; [|done]. unfold dict_get. by rewrite lookup_insert_ne.
    + by apply list_get_replace_other.
  - unfold remove. rewrite get_backup_to_db.
    unfold get, with_data. simpl. destruct (_data st) as [d|l]; simpl.
    + case_decide; [|done]. unfold dict_get. by rewrite lookup_delete_ne.
    + by apply list_get_filter_other.
Qed.

(** X6: calls about other keys do not change what get(K) returns:
    after any sequence of add, edit and remove calls none of which is
    about K, get(K) is what it was. *)
Theorem get_unchanged_by_other_keys ops st K :
  Forall (λ o, op_key o ≠ K) ops → get K (run ops st) = get K st.
Proof.
  revert st. induction ops as [|o ops IH]; intros st Hops; [done|].
  apply Forall_cons in Hops as [Ho Hops]. simpl.
  rewrite IH by done. by apply get_step_other.
Qed.

(** An add of a new key and a remove of it, when the backups
    complete. *)
Lemma add_then_remove st K v :
  K ∉ keys st →
  _data (remove K (add K v st).2) = _data st ∧
  cache (remove K (add K v st).2) !! K = Some (sqlite_text v).
Proof.
  intros Habs. pose proof (get_absent st K Habs) as Hget.
  unfold add. rewrite decide_False by (by intros H; apply H).
  assert (∀ c, stored K (items c) = None →
    cache (backup_to_db (with_data
      (backup_to_db (with_data st
         match _data st with
         | Dict d => Dict (<[K := v]> d)
         | Seq l => Seq (l ++ [(K, v)])
         end)) c)) !! K = Some (sqlite_text v)) as Hrow.
  { intros c Hc. simpl. rewrite !upsert_all_lookup, Hc.
    unfold keys in Habs. destruct (_data st) as [d|l]; simpl in *.
    - by rewrite stored_map_to_list, lookup_insert_eq.
    - assert (stored K (l ++ [(K, v)]) = Some v) as ->; [|done].
      clear -l. induction l as [|[k' w] l IH]; simpl.
      + by rewrite decide_True.
      + by rewrite IH. }
  unfold remove, keys in *. simpl.
  destruct (_data st) as [d|l] eqn:Hd; simpl in *.
  - rewrite dict_keys in Habs.
    assert (d !! K = None) as HK
      by (destruct (d !! K) eqn:E; [destruct Habs; eauto | done]).
    rewrite decide_True by (rewrite lookup_insert_eq; eauto).
    rewrite delete_insert_id by done. split; [done|].
    apply (Hrow (Dict d)). simpl. by rewrite stored_map_to_list.
  - rewrite filter_app, filter_absent_id by done.
    rewrite filter_cons_False by (simpl; auto). rewrite filter_nil, app_nil_r.
    split; [done|]. apply (Hrow (Seq l)). simpl. by apply stored_None.
Qed.

(** X8: remove(K) deletes every entry of K, also when a list holds
    several, and keeps every entry of another key. *)
Theorem remove_only_that_key st K :
  (K ∉ keys (remove K st)) ∧
  ∀ k v, k ≠ K →
    ((k, v) ∈ items (_data (remove K st)) ↔ (k, v) ∈ items (_data st)).
Proof.
  split; [apply keys_remove|]. intros k v Hne.
  unfold remove, with_data. simpl. destruct (_data st) as [d|l]; simpl.
  - case_decide; [|done]. rewrite !elem_of_map_to_list.
    by rewrite lookup_delete_ne.
  - rewrite list_elem_of_filter. simpl. split; [by intros [_ ?] | done].
Qed.

Lemma backup_with_data_twice st (c1 c2 : container) :
  (∀ k, k ∈ (items c1).*1 → k ∈ (items c2).*1) →
  backup_to_db (with_data (backup_to_db (with_data st c1)) c2)
    = backup_to_db (with_data st c2).
Proof.
  intros Hsub. unfold backup_to_db, with_data. simpl. f_equal.
  by apply upsert_all_absorb.
Qed.

Lemma edit_unfold st K v :
  edit K v st = backup_to_db (with_data st (edit_data K v (_data st))).
Proof. unfold edit, edit_data. by destruct (_data st). Qed.

Lemma remove_unfold st K :
  remove K st = backup_to_db (with_data st (remove_data K (_data st))).
Proof. unfold remove, remove_data. by destruct (_data st). Qed.

Lemma edit_data_keys K v (c : container) k :
  k ∈ (items (edit_data K v c)).*1 ↔ k ∈ (items c).*1.
Proof.
  destruct c as [d|l]; simpl.
  - case_decide as Hin; [|done]. rewrite !dict_keys, lookup_insert.
    case_decide; [subst; split; eauto | done].
  - by rewrite replace_value_keys.
Qed.

Lemma replace_value_twice K v1 v2 l :
  replace_value K v2 <$> (replace_value K v1 <$> l) = replace_value K v2 <$> l.
Proof.
  rewrite <- list_fmap_compose. apply list_fmap_ext. intros i [k w] _.
  unfold replace_value, compose. simpl.
  destruct (decide (k = K)) as [->|Hne]; simpl.
  - by rewrite decide_True.
  - by rewrite decide_False.
Qed.

Lemma edit_data_twice K v1 v2 (c : container) :
  edit_data K v2 (edit_data K v1 c) = edit_data K v2 c.
Proof.
  destruct c as [d|l]; simpl.
  - destruct (decide (is_Some (d !! K))) as [Hin|Hout].
    + rewrite decide_True by (rewrite lookup_insert_eq; eauto).
      by rewrite insert_insert_eq.
    + by rewrite decide_False.
  - by rewrite replace_value_twice.
Qed.

Lemma remove_data_twice K (c : container) :
  remove_data K (remove_data K c) = remove_data K c.
Proof.
  destruct c as [d|l]; simpl.
  - destruct (decide (is_Some (d !! K))) as [Hin|Hout].
    + rewrite decide_False; [done|]. rewrite lookup_delete_eq. by intros [? ?].
    + by rewrite decide_False.
  - f_equal. apply filter_absent_id, filter_keys_absent.
Qed.

(** Two edits of one key, when the backups complete. *)
Lemma edit_twice st K v1 v2 : edit K v2 (edit K v1 st) = edit K v2 st.
Proof.
  rewrite (edit_unfold (edit K v1 st)), (edit_unfold st K v1).
  change (_data (backup_to_db (with_data st (edit_data K v1 (_data st)))))
    with (edit_data K v1 (_data st)).
  rewrite edit_data_twice, backup_with_data_twice; [by rewrite edit_unfold|].
  intros k Hk. apply edit_data_keys. by apply edit_data_keys in Hk.
Qed.

(** X10: remove is idempotent: a second remove(K) changes neither the
    store nor the table. *)
Theorem remove_twice st K : remove K (remove K st) = remove K st.
Proof.
  rewrite (remove_unfold (remove K st)), (remove_unfold st K).
  change (_data (backup_to_db (with_data st (remove_data K (_data st)))))
    with (remove_data K (_data st)).
  by rewrite remove_data_twice, backup_with_data_twice.
Qed.

End composition.

(** ** Loading *)

Section loading.

Implicit Types (st : Cacheman) (db : table) (k : string).

(** X11: load_from_db raises exactly when allow_loading is false;
    otherwise it leaves the table and the data_type alone and replaces
    the store by the rows of the table, whatever the store held. *)
Theorem load_from_db_replaces_store st :
  match load_from_db st with
  | None => allow_loading st = false
  | Some st' =>
      allow_loading st = true ∧
      cache st' = cache st ∧
      data_type st' = data_type st ∧
      ∀ k v, (k, v) ∈ items (_data st') ↔ cache st !! k = Some v
  end.
Proof.
  unfold load_from_db, data_type. destruct (allow_loading st); [|done].
  split; [done|]. split; [done|]. unfold with_data, fetchall. simpl.
  destruct (_data st); (split; [done|]); intros k v; simpl.
  - rewrite dict_of_rows_map_to_list. apply elem_of_map_to_list.
  - apply elem_of_map_to_list.
Qed.

(** X12: loading a table of text and NULL values and backing the store
    up again leaves the table as it was. *)
Theorem load_then_backup st st' :
  sqlite_table (cache st) →
  load_from_db st = Some st' →
  backup_to_db st' = st' ∧ cache (backup_to_db st') = cache st.
Proof.
  intros Htab Hload. unfold load_from_db in Hload.
  destruct (allow_loading st) eqn:Hal; [|done]. injection Hload as <-.
  assert (synced (with_data st
            match _data st with
            | Dict _ => Dict (dict_of_rows (fetchall (cache st)))
            | Seq _ => Seq (fetchall (cache st))
            end)) as Hs.
  { apply synced_iff. intros k v. unfold fetchall.
    destruct (_data st); simpl;
      rewrite ?dict_of_rows_map_to_list, stored_map_to_list;
      intros Hk; rewrite Hk; f_equal; symmetry; by apply (Htab k). }
  split; [exact Hs|]. by rewrite Hs.
Qed.

Lemma step_keys_kept st o K :
  (∀ k, o ≠ Remove k) → K ∈ keys st → K ∈ keys (step st o).
Proof.
  unfold keys. destruct o as [k v|k v|k]; simpl; intros Ho.
  - unfold add. case_decide; simpl; [done|].
    destruct (_data st) as [d|l]; simpl.
    + rewrite !dict_keys, lookup_insert. case_decide; [by eauto | done].
    + rewrite fmap_app. intros Hin. apply elem_of_app. by left.
  - destruct (_data st) as [d|l]; simpl.
    + case_decide; [|done].
      rewrite !dict_keys, lookup_insert. case_decide; [by eauto | done].
    + by rewrite replace_value_keys.
  - by destruct (Ho k).
Qed.

Lemma backup_text_mirrors st :
  NoDup (keys st) →
  (∀ k, is_Some (cache st !! k) → k ∈ keys st) →
  text_mirrors (backup_to_db st).
Proof.
  intros Hnd Hdom k w. simpl. rewrite upsert_all_lookup. split.
  - destruct (stored k (items (_data st))) as [v|] eqn:E.
    + apply stored_elem in E. intros [= <-]. eauto.
    + intros Hk. apply stored_None in E. destruct E. apply Hdom. eauto.
  - intros (v & Hin & ->). by rewrite (stored_NoDup _ k v Hnd Hin).
Qed.

Lemma step_text_mirrors st o :
  stores_value o →
  good (λ v, v ≠ VNone) (_data st) ∧ text_mirrors st →
  good (λ v, v ≠ VNone) (_data (step st o)) ∧ text_mirrors (step st o).
Proof.
  intros Ho [Hgood Hmir].
  assert (good (λ v, v ≠ VNone) (_data (step st o))) as Hgood'.
  { apply step_good; [done | | done]. by destruct o. }
  split; [done|].
  destruct (step_backup st o) as [-> | Heq]; [done|].
  rewrite Heq. apply backup_text_mirrors.
  - apply Hgood'.
  - intros k [w Hk]. change (k ∈ keys (step st o)).
    apply step_keys_kept; [by destruct o|].
    apply Hmir in Hk as (v & Hin & _).
    unfold keys. apply list_elem_of_fmap. by exists (k, v).
Qed.

(** What a new instance reads back when every backup completed. *)
Lemma reload_gives_text_forms (dt dt' : dtype) (loading : bool) (ops : list op) :
  Forall stores_value ops →
  ∀ k w,
    (k, w) ∈ items (_data (__init__
                      (Some (cache (run ops (__init__ None dt loading)))) dt' true))
    ↔ ∃ v, (k, v) ∈ items (_data (run ops (__init__ None dt loading))) ∧
           w = sqlite_text v.
Proof.
  intros Hops k w. rewrite init_loads.
  assert (∀ st, good (λ v, v ≠ VNone) (_data st) ∧ text_mirrors st →
                text_mirrors (run ops st)) as Hrun.
  { clear k w. induction ops as [|o ops IH]; intros st Hst; [apply Hst|].
    apply Forall_cons in Hops as [Ho Hops]. simpl.
    apply IH; [done|]. by apply step_text_mirrors. }
  apply Hrun. destruct (init_consistent dt loading) as [[Hnd _] Hmir].
  split.
  - split; [done|]. destruct dt; simpl.
    + rewrite map_to_list_empty. apply Forall_nil_2.
    + apply Forall_nil_2.
  - intros k' w'. rewrite (Hmir k' w'). destruct dt; simpl.
    + rewrite map_to_list_empty. split.
      * by intros ?%elem_of_nil.
      * by intros (? & ?%elem_of_nil & _).
    + split.
      * by intros ?%elem_of_nil.
      * by intros (? & ?%elem_of_nil & _).
Qed.

End loading.

(** ** More about search *)

Section more_search.

Implicit Types (st : Cacheman) (q : string).

Lemma string_app_assoc (a b c : string) : (a +:+ b) +:+ c = a +:+ b +:+ c.
Proof.
  induction a as [|x a IH]; [reflexivity|].
  change (String x ((a +:+ b) +:+ c) = String x (a +:+ b +:+ c)).
  by rewrite IH.
Qed.

Lemma is_substring_trans (q1 q2 s : string) :
  is_substring q1 q2 → is_substring q2 s → is_substring q1 s.
Proof.
  intros (a & b & ->) (c & d & ->). exists (c +:+ a), (b +:+ d).
  by rewrite !string_app_assoc.
Qed.

Lemma matches_empty (e : string * value) : matches "" e = true.
Proof. unfold matches. by destruct (e.1). Qed.

Lemma search_elem st q k v :
  (k, v) ∈ items (search q st) ↔
  (k, v) ∈ items (_data st) ∧ matches q (k, v) = true.
Proof.
  unfold search. destruct (_data st) as [d|l]; simpl.
  - rewrite !elem_of_map_to_list, map_lookup_filter_Some. done.
  - rewrite list_elem_of_filter. tauto.
Qed.

(** X14: the empty query matches everything: search("") returns the
    whole store, as get_all() does. *)
Theorem search_empty_query st : search "" st = get_all st.
Proof.
  unfold search, get_all. destruct (_data st) as [d|l]; f_equal.
  - apply map_filter_id. intros k v _. apply matches_empty.
  - induction l as [|e l IH]; [done|].
    rewrite filter_cons_True by apply matches_empty. by rewrite IH.
Qed.

(** X15: a longer query narrows the result: when q1 is a substring of
    q2, every entry that search(q2) returns is returned by search(q1)
    too. *)
Theorem search_narrows st q1 q2 k v :
  is_substring q1 q2 →
  (k, v) ∈ items (search q2 st) → (k, v) ∈ items (search q1 st).
Proof.
  intros Hq. rewrite !search_elem, !matches_spec. simpl.
  intros [Hin [Hk | Hv]]; (split; [done|]).
  - left. by apply (is_substring_trans q1 q2).
  - right. by apply (is_substring_trans q1 q2).
Qed.

End more_search.

(** ** The constructor *)

Section construction.

Variable module_dir : string.
Variable path_join : string → string → string.

Abbreviation new := (Cacheman_new module_dir path_join).



End construction.

(** ** Writing through and insertion order *)

Section write_through.

Implicit Types (l : list (string * value)) (st : Cacheman) (K : string) (v : value).

Lemma stored_snoc l K v : stored K (l ++ [(K, v)]) = Some v.
Proof.
  induction l as [|[k w] l IH]; simpl.
  - by rewrite decide_True.
  - by rewrite IH.
Qed.

Lemma stored_replace_value l K v :
  K ∈ l.*1 → stored K (replace_value K v <$> l) = Some v.
Proof.
  induction l as [|[k w] l IH]; [by intros ?%elem_of_nil|].
  rewrite !fmap_cons. unfold replace_value at 1. simpl.
  destruct (decide (k = K)) as [->|Hne]; simpl; intros Hin.
  - destruct (decide (K ∈ l.*1)) as [Hl|Hl].
    + by rewrite (IH Hl).
    + assert (stored K (replace_value K v <$> l) = None) as ->.
      { apply stored_None. by rewrite replace_value_keys. }
      by rewrite decide_True.
  - apply elem_of_cons in Hin as [?|Hl]; [congruence|].
    by rewrite (IH Hl).
Qed.

(** X18: an add that succeeds is in the table when it returns: the row
    of K then holds the text form of v, whatever the row held. *)
Theorem add_writes_row st K v :
  (add K v st).1 = RNone →
  (K, v) ∈ items (_data (add K v st).2) ∧
  cache (add K v st).2 !! K = Some (sqlite_text v).
Proof.
  unfold add. case_decide; [done|]. intros _. simpl.
  rewrite upsert_all_lookup. destruct (_data st) as [d|l]; simpl.
  - rewrite stored_map_to_list, lookup_insert_eq. split; [|done].
    apply elem_of_map_to_list, lookup_insert_eq.
  - rewrite stored_snoc. split; [|done].
    apply elem_of_app. right. left.
Qed.

(** X19: an edit of a key that the store holds is in the table when it
    returns: the row of K then holds the text form of the new value. *)
Theorem edit_writes_row st K v :
  K ∈ keys st → cache (edit K v st) !! K = Some (sqlite_text v).
Proof.
  unfold keys, edit. simpl. rewrite upsert_all_lookup.
  destruct (_data st) as [d|l]; simpl.
  - rewrite dict_keys. intros Hin. rewrite decide_True by done.
    by rewrite stored_map_to_list, lookup_insert_eq.
  - intros Hin. by rewrite stored_replace_value.
Qed.

(** X20: a list store keeps insertion order: adding entries with keys
    that are new and distinct, one add call each, appends them to the
    list in the order of the calls. *)
Theorem list_keeps_insertion_order st l0 (kvs : list (string * value)) :
  _data st = Seq l0 →
  NoDup (l0 ++ kvs).*1 →
  get_all (run ((λ e, Add e.1 e.2) <$> kvs) st) = Seq (l0 ++ kvs).
Proof.
  revert st l0. induction kvs as [|[k v] kvs IH]; intros st l0 Hst Hnd.
  - by rewrite app_nil_r.
  - rewrite fmap_cons. simpl.
    assert (k ∉ l0.*1) as Hk.
    { rewrite fmap_app in Hnd. apply NoDup_app in Hnd as (_ & Hdis & _).
      intros Hin. apply (Hdis k Hin). simpl. left. }
    rewrite (IH _ (l0 ++ [(k, v)])).
    + by rewrite <- app_assoc.
    + unfold add, get. rewrite Hst.
      rewrite decide_False; [done|].
      intros Hget. apply Hget. by apply list_get_absent.
    + by rewrite <- app_assoc.
Qed.

End write_through.

(** ** Further concrete runs *)

Lemma sqlite_table_singleton (k : string) (s : string) :
  sqlite_table {[ k := VStr s ]}.
Proof.
  intros k' v Hk. apply lookup_singleton_Some in Hk as [_ <-]. done.
Qed.

Lemma periodic_backups_change_nothing_witness :
  from_option sqlite_table True (None : option table) ∧
  run_events true
    [Tick; Call (Add "a" (VInt 1)); Tick; Tick; Call (Edit "a" VNone); Tick]
    (__init__ None DictT true)
  = run (calls
      [Tick; Call (Add "a" (VInt 1)); Tick; Tick; Call (Edit "a" VNone); Tick])
      (__init__ None DictT true).
Proof.
  split; [exact I|].
  exact (periodic_backups_change_nothing true None DictT true
           [Tick; Call (Add "a" (VInt 1)); Tick; Tick; Call (Edit "a" VNone); Tick]
           I).
Defined.

Lemma rows_are_never_deleted_witness :
  is_Some (cache (mkCacheman true (Seq []) {[ "a" := VStr "1" ]}) !! "a") ∧
  is_Some (cache (run [Remove "a"; Add "b" (VInt 2); Remove "b"]
                      (mkCacheman true (Seq []) {[ "a" := VStr "1" ]})) !! "a").
Proof.
  assert (is_Some (cache (mkCacheman true (Seq []) {[ "a" := VStr "1" ]}) !! "a"))
    as Hrow by (vm_compute; eauto).
  split; [exact Hrow|].
  exact (rows_are_never_deleted [Remove "a"; Add "b" (VInt 2); Remove "b"]
           (mkCacheman true (Seq []) {[ "a" := VStr "1" ]}) "a" Hrow).
Defined.

Lemma untouched_key_keeps_row_witness :
  ("a" ∉ keys (__init__ (Some {[ "a" := VStr "1" ]}) DictT false)) ∧
  Forall (λ o, ¬ adds "a" o) [Add "b" (VInt 2); Edit "a" (VInt 3); Remove "a"] ∧
  cache (run [Add "b" (VInt 2); Edit "a" (VInt 3); Remove "a"]
             (__init__ (Some {[ "a" := VStr "1" ]}) DictT false)) !! "a"
  = Some (VStr "1").
Proof.
  assert ("a" ∉ keys (__init__ (Some {[ "a" := VStr "1" ]}) DictT false)) as Habs.
  { unfold keys. simpl. rewrite map_to_list_empty. apply not_elem_of_nil. }
  assert (Forall (λ o, ¬ adds "a" o)
            [Add "b" (VInt 2); Edit "a" (VInt 3); Remove "a"]) as Hops.
  { repeat constructor; simpl; [discriminate | tauto | tauto]. }
  split; [exact Habs|]. split; [exact Hops|].
  exact (proj2 (proj2 (untouched_key_keeps_row
           [Add "b" (VInt 2); Edit "a" (VInt 3); Remove "a"]
           (__init__ (Some {[ "a" := VStr "1" ]}) DictT false) "a" Habs Hops))).
Defined.

Lemma get_unchanged_by_other_keys_witness :
  Forall (λ o, op_key o ≠ "a") [Add "b" (VInt 2); Edit "b" (VInt 3); Remove "c"] ∧
  get "a" (run [Add "b" (VInt 2); Edit "b" (VInt 3); Remove "c"]
               (mkCacheman true (Seq [("a", VInt 1)]) ∅))
  = VInt 1.
Proof.
  assert (Forall (λ o, op_key o ≠ "a")
            [Add "b" (VInt 2); Edit "b" (VInt 3); Remove "c"]) as Hops
    by (repeat constructor; simpl; discriminate).
  split; [exact Hops|].
  exact (get_unchanged_by_other_keys
           [Add "b" (VInt 2); Edit "b" (VInt 3); Remove "c"]
           (mkCacheman true (Seq [("a", VInt 1)]) ∅) "a" Hops).
Defined.

Lemma load_then_backup_witness :
  sqlite_table (cache (mkCacheman true (Seq [("x", VInt 0)]) {[ "a" := VStr "1" ]})) ∧
  load_from_db (mkCacheman true (Seq [("x", VInt 0)]) {[ "a" := VStr "1" ]})
    = Some (mkCacheman true (Seq [("a", VStr "1")]) {[ "a" := VStr "1" ]}) ∧
  cache (backup_to_db (mkCacheman true (Seq [("a", VStr "1")]) {[ "a" := VStr "1" ]}))
    = {[ "a" := VStr "1" ]}.
Proof.
  assert (sqlite_table
            (cache (mkCacheman true (Seq [("x", VInt 0)]) {[ "a" := VStr "1" ]})))
    as Htab by apply sqlite_table_singleton.
  assert (load_from_db (mkCacheman true (Seq [("x", VInt 0)]) {[ "a" := VStr "1" ]})
          = Some (mkCacheman true (Seq [("a", VStr "1")]) {[ "a" := VStr "1" ]}))
    as Hload by (vm_compute; reflexivity).
  split; [exact Htab|]. split; [exact Hload|].
  exact (proj2 (load_then_backup _ _ Htab Hload)).
Defined.

Lemma search_narrows_witness :
  is_substring "et" "beta" ∧
  (("beta", VStr "2") ∈
     items (search "beta"
       (mkCacheman true (Seq [("alpha", VStr "1"); ("beta", VStr "2")]) ∅))) ∧
  ("beta", VStr "2") ∈
     items (search "et"
       (mkCacheman true (Seq [("alpha", VStr "1"); ("beta", VStr "2")]) ∅)).
Proof.
  assert (is_substring "et" "beta") as Hq by (by exists "b", "a").
  assert (("beta", VStr "2") ∈
     items (search "beta"
       (mkCacheman true (Seq [("alpha", VStr "1"); ("beta", VStr "2")]) ∅)))
    as Hin.
  { assert (search "beta"
       (mkCacheman true (Seq [("alpha", VStr "1"); ("beta", VStr "2")]) ∅)
       = Seq [("beta", VStr "2")]) as -> by (vm_compute; reflexivity).
    simpl. left. }
  split; [exact Hq|]. split; [exact Hin|].
  exact (search_narrows
           (mkCacheman true (Seq [("alpha", VStr "1"); ("beta", VStr "2")]) ∅)
           "et" "beta" "beta" (VStr "2") Hq Hin).
Defined.


Lemma add_writes_row_witness :
  (add "a" (VInt 5) (mkCacheman true (Dict {[ "a" := VInt 0 ]}) {[ "a" := VStr "0" ]})).1
    = RNone ∧
  cache (add "a" (VInt 5)
           (mkCacheman true (Dict {[ "a" := VInt 0 ]}) {[ "a" := VStr "0" ]})).2
    !! "a" = Some (VStr "5").
Proof.
  assert ((add "a" (VInt 5)
             (mkCacheman true (Dict {[ "a" := VInt 0 ]}) {[ "a" := VStr "0" ]})).1
          = RNone) as Hadd by (vm_compute; reflexivity).
  split; [exact Hadd|].
  exact (proj2 (add_writes_row
           (mkCacheman true (Dict {[ "a" := VInt 0 ]}) {[ "a" := VStr "0" ]})
           "a" (VInt 5) Hadd)).
Defined.

Lemma edit_writes_row_witness :
  ("a" ∈ keys (mkCacheman true (Seq [("a", VNone); ("a", VInt 1)]) ∅)) ∧
  cache (edit "a" (VInt 9) (mkCacheman true (Seq [("a", VNone); ("a", VInt 1)]) ∅))
    !! "a" = Some (VStr "9").
Proof.
  assert ("a" ∈ keys (mkCacheman true (Seq [("a", VNone); ("a", VInt 1)]) ∅))
    as Hin by (unfold keys; simpl; left).
  split; [exact Hin|].
  exact (edit_writes_row
           (mkCacheman true (Seq [("a", VNone); ("a", VInt 1)]) ∅)
           "a" (VInt 9) Hin).
Defined.

Lemma list_keeps_insertion_order_witness :
  _data (mkCacheman true (Seq [("z", VInt 0)]) ∅) = Seq [("z", VInt 0)] ∧
  NoDup ([("z", VInt 0)] ++ [("b", VNone); ("a", VInt 0)]).*1 ∧
  get_all (run ((λ e, Add e.1 e.2) <$> [("b", VNone); ("a", VInt 0)])
               (mkCacheman true (Seq [("z", VInt 0)]) ∅))
  = Seq ([("z", VInt 0)] ++ [("b", VNone); ("a", VInt 0)]).
Proof.
  assert (NoDup ([("z", VInt 0)] ++ [("b", VNone); ("a", VInt 0)]).*1) as Hnd.
  { simpl. repeat (apply NoDup_cons; split);
      [ | | | apply NoDup_nil_2];
      rewrite ?not_elem_of_cons; repeat split;
      try discriminate; apply not_elem_of_nil. }
  split; [reflexivity|]. split; [exact Hnd|].
  exact (list_keeps_insertion_order
           (mkCacheman true (Seq [("z", VInt 0)]) ∅)
           [("z", VInt 0)] [("b", VNone); ("a", VInt 0)] eq_refl Hnd).
Defined.

(** ** Calls whose backup may raise *)

Section raising.

Implicit Types (rows : list (string * value)) (db : table).
Implicit Types (st : Cacheman) (c : container) (K k : string) (v : value) (o : op).

Lemma execute_all_binds rows db :
  Forall (λ e, bindable e.2 = true) rows →
  execute_all rows db = inr (upsert_all rows db).
Proof.
  revert db. induction rows as [|row rows IH]; intros db Hall; [done|].
  apply Forall_cons in Hall as [Hrow Hall]. simpl. rewrite Hrow. by apply IH.
Qed.

Lemma execute_all_raises rows db :
  ¬ Forall (λ e, bindable e.2 = true) rows →
  execute_all rows db = inl OverflowError.
Proof.
  revert db. induction rows as [|row rows IH]; intros db Hall.
  - destruct Hall. apply Forall_nil_2.
  - simpl. destruct (bindable row.2) eqn:Hrow; [|done].
    apply IH. intros Hrows. apply Hall. by apply Forall_cons.
Qed.

#[global] Instance binds_dec c : Decision (binds c).
Proof. unfold binds. apply _. Defined.

Lemma backup_call_returns st :
  binds (_data st) → backup_to_db_call st = (Returns RNone, backup_to_db st).
Proof.
  intros Hb. unfold backup_to_db_call. by rewrite execute_all_binds.
Qed.

Lemma backup_call_raises st :
  ¬ binds (_data st) → backup_to_db_call st = (Raises OverflowError, st).
Proof.
  intros Hb. unfold backup_to_db_call. by rewrite execute_all_raises.
Qed.

Lemma backup_call_outcome st :
  ((backup_to_db_call st).1 = Returns RNone ↔ binds (_data st)) ∧
  ((backup_to_db_call st).1 = Raises OverflowError ↔ ¬ binds (_data st)).
Proof.
  destruct (decide (binds (_data st))) as [Hb|Hb].
  - rewrite backup_call_returns by done. simpl. split; split; done.
  - rewrite backup_call_raises by done. simpl. split; split; done.
Qed.

Lemma backup_call_data st : _data (backup_to_db_call st).2 = _data st.
Proof.
  destruct (decide (binds (_data st))) as [Hb|Hb].
  - by rewrite backup_call_returns.
  - by rewrite backup_call_raises.
Qed.

Lemma get_data_eq st1 st2 K : _data st1 = _data st2 → get K st1 = get K st2.
Proof. unfold get. by intros ->. Qed.

(** A call and its backup. *)
Lemma call_unfold o st :
  (∃ msg, call o st = (Returns (RKeyError msg), st) ∧ step st o = st) ∨
  (call o st = backup_to_db_call (with_data st (_data (step st o))) ∧
   step st o = backup_to_db (with_data st (_data (step st o)))).
Proof.
  destruct o as [k v|k v|k]; simpl.
  - unfold add_call, add. case_decide; [left; eauto | by right].
  - by right.
  - by right.
Qed.

Lemma call_data o st : _data (call o st).2 = _data (step st o).
Proof.
  destruct (call_unfold o st) as [(msg & -> & ->) | [-> _]]; [done|].
  by rewrite backup_call_data.
Qed.

Lemma call_returns o st :
  binds (_data (step st o)) → returned (call o st).1 ∧ (call o st).2 = step st o.
Proof.
  intros Hb. destruct (call_unfold o st) as [(msg & -> & ->) | [-> Hstep]].
  - split; [by eexists | done].
  - rewrite backup_call_returns by done. simpl. split; [by eexists | done].
Qed.

Lemma call_returned_step o st : returned (call o st).1 → (call o st).2 = step st o.
Proof.
  intros [x Hx]. destruct (call_unfold o st) as [(msg & -> & ->) | [Hcall Hstep]].
  - done.
  - destruct (decide (binds (_data (step st o)))) as [Hb|Hb].
    + rewrite Hcall, backup_call_returns by done. done.
    + rewrite Hcall, backup_call_raises in Hx by done. done.
Qed.

Lemma call_state o st :
  (call o st).2 = step st o ∨
  (call o st).2 = with_data st (_data (step st o)).
Proof.
  destruct (call_unfold o st) as [(msg & -> & ->) | [-> Hstep]]; [by left|].
  destruct (decide (binds (_data (step st o)))) as [Hb|Hb].
  - left. by rewrite backup_call_returns.
  - right. by rewrite backup_call_raises.
Qed.

Lemma binds_iff c : binds c ↔ ∀ k v, (k, v) ∈ items c → bindable v = true.
Proof.
  unfold binds. rewrite Forall_forall. split.
  - intros H k v Hin. apply (H (k, v) Hin).
  - intros H [k v] Hin. by apply (H k v).
Qed.

Lemma binds_dict_insert (d : gmap string value) K v :
  d !! K = None →
  binds (Dict (<[K := v]> d)) ↔ bindable v = true ∧ binds (Dict d).
Proof.
  intros HK. rewrite !binds_iff. simpl. split.
  - intros H. split.
    + apply (H K). apply elem_of_map_to_list, lookup_insert_eq.
    + intros k w Hin. apply (H k). apply elem_of_map_to_list.
      apply elem_of_map_to_list in Hin.
      rewrite lookup_insert_ne; [done | congruence].
  - intros [Hv H] k w Hin. apply elem_of_map_to_list in Hin.
    rewrite lookup_insert in Hin. case_decide.
    + by injection Hin as <-.
    + apply (H k). by apply elem_of_map_to_list.
Qed.

Lemma binds_list_snoc (l : list (string * value)) K v :
  binds (Seq (l ++ [(K, v)])) ↔ bindable v = true ∧ binds (Seq l).
Proof.
  unfold binds. simpl. rewrite Forall_app, Forall_singleton. simpl. tauto.
Qed.

Lemma step_binds st o :
  op_binds o → binds (_data st) → binds (_data (step st o)).
Proof.
  intros Ho Hb. destruct o as [k v|k v|k]; simpl in *.
  - unfold add. case_decide; simpl; [done|].
    destruct (_data st) as [d|l]; simpl.
    + rewrite binds_iff in *. simpl in *. intros k' w Hin.
      apply elem_of_map_to_list in Hin. rewrite lookup_insert in Hin.
      case_decide.
      * by injection Hin as <-.
      * apply (Hb k'). by apply elem_of_map_to_list.
    + by apply binds_list_snoc.
  - destruct (_data st) as [d|l]; simpl.
    + case_decide; [|done]. rewrite binds_iff in *. simpl in *.
      intros k' w Hin. apply elem_of_map_to_list in Hin.
      rewrite lookup_insert in Hin. case_decide.
      * by injection Hin as <-.
      * apply (Hb k'). by apply elem_of_map_to_list.
    + unfold binds in *. simpl in *. apply Forall_fmap.
      eapply Forall_impl; [exact Hb|]. intros e He.
      unfold replace_value. simpl. by case_decide.
  - destruct (_data st) as [d|l]; simpl.
    + case_decide; [|done]. rewrite binds_iff in *. simpl in *.
      intros k' w Hin. apply elem_of_map_to_list in Hin.
      rewrite lookup_delete in Hin. case_decide; [done|].
      apply (Hb k'). by apply elem_of_map_to_list.
    + unfold binds in *. simpl in *. apply Forall_forall. intros e He.
      apply list_elem_of_filter in He as [_ He].
      rewrite Forall_forall in Hb. auto.
Qed.

Lemma run_calls_binds ops st :
  Forall op_binds ops → binds (_data st) →
  Forall returned (run_calls ops st).1 ∧ (run_calls ops st).2 = run ops st.
Proof.
  revert st. induction ops as [|o ops IH]; intros st Hops Hb.
  - split; [apply Forall_nil_2 | done].
  - apply Forall_cons in Hops as [Ho Hops]. simpl.
    pose proof (step_binds st o Ho Hb) as Hb'.
    destruct (call_returns o st Hb') as [Hret Hst]. rewrite Hst.
    destruct (IH (step st o) Hops Hb') as [Hrets Hrun].
    split; [by apply Forall_cons | done].
Qed.

Lemma init_binds (file : option table) dt loading :
  from_option sqlite_table True file → binds (_data (__init__ file dt loading)).
Proof.
  intros Hfile. apply binds_iff. intros k v.
  destruct file as [db|], loading, dt; simpl; unfold fetchall;
    rewrite ?dict_of_rows_map_to_list, ?map_to_list_empty;
    try (by intros ?%elem_of_nil);
    intros Hin; apply elem_of_map_to_list in Hin;
    apply (Hfile k) in Hin; by destruct v.
Qed.

End raising.

(** ** How the calls end *)

Section outcomes.

Implicit Types (st : Cacheman) (K k : string) (v : value) (o : op).

Lemma run_binds ops st :
  Forall op_binds ops → binds (_data st) → binds (_data (run ops st)).
Proof.
  revert st. induction ops as [|o ops IH]; intros st Hops Hb; [done|].
  apply Forall_cons in Hops as [Ho Hops]. simpl.
  apply IH; [done|]. by apply step_binds.
Qed.

Lemma remove_call_data st K :
  _data (remove_call K st).2 = remove_data K (_data st).
Proof.
  transitivity (_data (remove K st)); [exact (call_data (Remove K) st)|].
  by rewrite remove_unfold.
Qed.

Lemma edit_call_data st K v :
  _data (edit_call K v st).2 = edit_data K v (_data st).
Proof.
  transitivity (_data (edit K v st)); [exact (call_data (Edit K v) st)|].
  by rewrite edit_unfold.
Qed.

Lemma add_call_data st K v : _data (add_call K v st).2 = _data (add K v st).2.
Proof. exact (call_data (Add K v) st). Qed.





(** X7: add(K, v) of a key the store does not hold, followed by
    remove(K), gives the store back as it was (in a list also the
    order), whether or not a backup raised; and when the add returned,
    the table has the row of K with the text form of v afterwards. *)
Theorem add_call_then_remove_call st K v :
  K ∉ keys st →
  _data (remove_call K (add_call K v st).2).2 = _data st ∧
  ((add_call K v st).1 = Returns RNone →
   cache (remove_call K (add_call K v st).2).2 !! K = Some (sqlite_text v)).
Proof.
  intros Habs. destruct (add_then_remove st K v Habs) as [Hdata Hrow].
  split.
  - rewrite remove_call_data, add_call_data.
    rewrite remove_unfold in Hdata. exact Hdata.
  - intros Hret.
    assert ((add_call K v st).2 = (add K v st).2) as ->
      by (apply (call_returned_step (Add K v) st); by eexists).
    assert (cache (add K v st).2 !! K = Some (sqlite_text v)) as Hrow1.
    { rewrite <- Hrow. symmetry.
      apply (step_absent_row (add K v st).2 (Remove K) K), keys_remove. }
    destruct (call_state (Remove K) (add K v st).2) as [Hst | Hst];
      simpl in Hst; rewrite Hst; done.
Qed.

(** X9: a second edit of the same key overrides the first: after
    edit(K, v1) and edit(K, v2) the store is as after edit(K, v2) alone,
    and when edit(K, v2) alone returns, the two sequences end the same
    way and leave the same store and table. *)
Theorem edit_call_twice st K v1 v2 :
  _data (edit_call K v2 (edit_call K v1 st).2).2 = _data (edit_call K v2 st).2 ∧
  ((edit_call K v2 st).1 = Returns RNone →
   edit_call K v2 (edit_call K v1 st).2 = edit_call K v2 st).
Proof.
  assert (∀ s k w, edit_call k w s
            = backup_to_db_call (with_data s (edit_data k w (_data s)))) as Hunf.
  { intros s k w. unfold edit_call, edit_data. by destruct (_data s). }
  pose proof (edit_call_data st K v1) as Hd1.
  split.
  - by rewrite !edit_call_data, edit_data_twice.
  - intros Hret. rewrite (Hunf st K v2) in Hret.
    apply (proj1 (backup_call_outcome _)) in Hret. simpl in Hret.
    rewrite (Hunf (edit_call K v1 st).2 K v2), Hd1, edit_data_twice.
    rewrite (Hunf st K v2).
    rewrite !backup_call_returns by done. f_equal.
    destruct (call_state (Edit K v1) st) as [Hst | Hst]; simpl in Hst; rewrite Hst.
    + rewrite edit_unfold. apply backup_with_data_twice.
      intros k Hk. apply edit_data_keys. by apply edit_data_keys in Hk.
    + done.
Qed.


End outcomes.

(** ** Concrete runs of calls that raise *)








Lemma add_call_then_remove_call_witness :
  ("b" ∉ keys (mkCacheman true (Seq [("a", VInt 1)]) ∅)) ∧
  (add_call "b" (VInt 2) (mkCacheman true (Seq [("a", VInt 1)]) ∅)).1
    = Returns RNone ∧
  _data (remove_call "b"
           (add_call "b" (VInt 2) (mkCacheman true (Seq [("a", VInt 1)]) ∅)).2).2
    = Seq [("a", VInt 1)] ∧
  cache (remove_call "b"
           (add_call "b" (VInt 2) (mkCacheman true (Seq [("a", VInt 1)]) ∅)).2).2
    !! "b" = Some (VStr "2").
Proof.
  assert ("b" ∉ keys (mkCacheman true (Seq [("a", VInt 1)]) ∅)) as Habs.
  { unfold keys. simpl. intros H. apply list_elem_of_singleton in H. discriminate. }
  assert ((add_call "b" (VInt 2) (mkCacheman true (Seq [("a", VInt 1)]) ∅)).1
          = Returns RNone) as Hret by (vm_compute; reflexivity).
  split; [exact Habs|]. split; [exact Hret|]. split.
  - exact (proj1 (add_call_then_remove_call
             (mkCacheman true (Seq [("a", VInt 1)]) ∅) "b" (VInt 2) Habs)).
  - exact (proj2 (add_call_then_remove_call
             (mkCacheman true (Seq [("a", VInt 1)]) ∅) "b" (VInt 2) Habs) Hret).
Defined.

Lemma edit_call_twice_witness :
  (edit_call "a" (VInt 2) (mkCacheman true (Dict {[ "a" := VInt 0 ]}) ∅)).1
    = Returns RNone ∧
  edit_call "a" (VInt 2)
    (edit_call "a" (VInt 9223372036854775808)
       (mkCacheman true (Dict {[ "a" := VInt 0 ]}) ∅)).2
  = edit_call "a" (VInt 2) (mkCacheman true (Dict {[ "a" := VInt 0 ]}) ∅).
Proof.
  assert ((edit_call "a" (VInt 2) (mkCacheman true (Dict {[ "a" := VInt 0 ]}) ∅)).1
          = Returns RNone) as Hret by (vm_compute; reflexivity).
  split; [exact Hret|].
  exact (proj2 (edit_call_twice
           (mkCacheman true (Dict {[ "a" := VInt 0 ]}) ∅)
           "a" (VInt 9223372036854775808) (VInt 2)) Hret).
Defined.


(** The limits of what binds. *)
Example bindable_limits :
  bindable (VInt 9223372036854775807) = true ∧
  bindable (VInt (-9223372036854775808)) = true ∧
  bindable (VInt 9223372036854775808) = false ∧
  bindable (VInt (-9223372036854775809)) = false ∧
  bindable VNone = true ∧ bindable (VStr "") = true.
Proof. repeat split; reflexivity. Qed.

(** A backup that raises writes nothing, not even the rows of the
    entries before the one that did not bind. *)
Example backup_raises_and_rolls_back :
  backup_to_db_call
    (mkCacheman true (Seq [("a", VInt 1); ("b", VInt 9223372036854775808)]) ∅)
  = (Raises OverflowError,
     mkCacheman true (Seq [("a", VInt 1); ("b", VInt 9223372036854775808)]) ∅).
Proof. vm_compute. reflexivity. Qed.
